(** * The offline cache worker of noted (static/sw.js)

    A shallow embedding of the three event listeners of [sw.js] (install,
    activate, fetch) over a model of the browser objects they call:
    [caches] (the CacheStorage), a [Cache] opened by name, [fetch] and the
    event's [waitUntil] / [respondWith].

    A listener is synchronous code: each call it makes into the host is
    logged at the moment it is made and hands back a promise.  A promise
    is what happens later, when it is run to its settlement: it fulfils
    with a value or rejects.  [.then] and [.catch] chain a callback, which
    is again synchronous code run at that later moment.  A chain the
    listener starts and does not await is kept as pending work; pending
    work runs one job at a time, in any order. *)

From Stdlib Require Import Ascii String List Bool NArith Lia.
From stdpp Require Import base option list strings gmap.
Import ListNotations.

Local Open Scope string_scope.
Local Open Scope list_scope.

(** ** Constants of the script *)

Definition CACHE_NAME : string := "didit-cache-v1".

Definition ASSETS : list string :=
  [ "/";
    "/static/index.html";
    "/static/manifest.webmanifest";
    "/static/icons/ICON.jpg" ].

(** ** Requests, responses, storage *)

(** The three fields of [event.request] the script reads. *)
Record Request : Type := mkRequest {
  method : string;
  url : string;
  mode : string
}.

Record Response : Type := mkResponse {
  status : N;
  headers : list (string * string);
  body : string
}.

(** [resp.clone()]: a second response with the same status, headers, body. *)
Definition clone (resp : Response) : Response :=
  {| status := status resp; headers := headers resp; body := body resp |}.

(** One cache generation: the stored response of each request URL. *)
Abbreviation Cache := (gmap string Response).

(** The CacheStorage: the generations by name, in creation order (the order
    of [caches.keys()] and the order in which [caches.match] searches). *)
Abbreviation CacheStorage := (list (string * Cache)).

(** The network as one event sees it: a response, or [None] when the fetch
    rejects.  A response with a 4xx or 5xx status is still a response. *)
Definition Network : Type := Request -> option Response.

(** Calls of the script into the host, as logged. *)
Inductive HostCall : Type :=
| CallFetch (r : Request)
| CallCachesMatch (r : Request)
| CallCachesOpen (name : string)
| CallCachesKeys
| CallCachesDelete (name : string)
| CallCacheMatch (name : string) (r : Request)
| CallCachePut (name : string) (r : Request) (resp : Response)
| CallCacheAddAll (name : string) (paths : list string)
| CallSkipWaiting
| CallClientsClaim.

(** A promise chain started and not awaited by the listener: the
    [.then((c) => c.put(request, copy))] hung on the promise of
    [caches.open(CACHE_NAME)]. *)
Inductive Job : Type :=
| Refill (r : Request) (copy : Response).

Record Host : Type := mkHost {
  caches : CacheStorage;
  calls : list HostCall;
  background : list Job
}.

Definition log (c : HostCall) (h : Host) : Host :=
  {| caches := caches h; calls := calls h ++ [c]; background := background h |}.

Definition set_caches (s : CacheStorage) (h : Host) : Host :=
  {| caches := s; calls := calls h; background := background h |}.

Definition set_background (js : list Job) (h : Host) : Host :=
  {| caches := caches h; calls := calls h; background := js |}.

Definition spawn (j : Job) (h : Host) : Host :=
  {| caches := caches h; calls := calls h; background := background h ++ [j] |}.

(** ** What the Cache accepts *)

Definition lower (c : ascii) : ascii :=
  let n := nat_of_ascii c in
  if (65 <=? n)%nat && (n <=? 90)%nat then ascii_of_nat (n + 32) else c.

Fixpoint lowercase (s : string) : string :=
  match s with
  | EmptyString => EmptyString
  | String c s' => String (lower c) (lowercase s')
  end.

(** The field names of a header value: split at commas, blanks dropped. *)
Fixpoint field_names (current : string) (s : string) : list string :=
  match s with
  | EmptyString => [current]
  | String c s' =>
      if Ascii.eqb c "," then current :: field_names EmptyString s'
      else if Ascii.eqb c " " || Ascii.eqb c "009" then field_names current s'
      else field_names (current ++ String c EmptyString) s'
  end.

(** A [Vary] header that lists [*]. *)
Definition varies_on_everything (resp : Response) : bool :=
  existsb (fun kv =>
             String.eqb (lowercase (fst kv)) "vary"
             && existsb (String.eqb "*") (field_names EmptyString (snd kv)))
          (headers resp).

(** [response.ok]: a status from 200 to 299. *)
Definition ok (resp : Response) : bool :=
  (200 <=? status resp)%N && (status resp <=? 299)%N.

Definition http_scheme (u : string) : bool :=
  String.prefix "http://" u || String.prefix "https://" u.

(** [cache.put(request, response)] throws a TypeError, and stores nothing,
    for a request that is not an http(s) GET, for a 206 and for a response
    that varies on everything. *)
Definition put_accepts (r : Request) (resp : Response) : bool :=
  String.eqb (method r) "GET"
  && http_scheme (url r)
  && negb (status resp =? 206)%N
  && negb (varies_on_everything resp).

(** [cache.addAll] refuses, besides, every response that is not ok. *)
Definition addAll_accepts (e : Request * Response) : bool :=
  put_accepts (fst e) (snd e) && ok (snd e).

(** ** Pure operations on the storage *)

(** [cache.match(request)]: keyed by URL; a request that is not a GET
    matches nothing. *)
Definition cache_lookup (c : Cache) (r : Request) : option Response :=
  if String.eqb (method r) "GET" then c !! url r else None.

(** [caches.match(request)]: the first generation, in creation order, that
    holds a match. *)
Fixpoint storage_match (s : CacheStorage) (r : Request) : option Response :=
  match s with
  | [] => None
  | (_, c) :: s' =>
      match cache_lookup c r with
      | Some resp => Some resp
      | None => storage_match s' r
      end
  end.

Definition has_generation (name : string) (s : CacheStorage) : bool :=
  existsb (fun g => String.eqb (fst g) name) s.

(** The generation a name denotes, if any. *)
Fixpoint generation (name : string) (s : CacheStorage) : option Cache :=
  match s with
  | [] => None
  | (n, c) :: s' => if String.eqb n name then Some c else generation name s'
  end.

(** [caches.open(name)] creates the generation, empty, when it is absent. *)
Definition storage_open (name : string) (s : CacheStorage) : CacheStorage :=
  if has_generation name s then s else s ++ [(name, ∅)].

(** Apply [f] to the generation [name]. *)
Fixpoint storage_update (name : string) (f : Cache -> Cache) (s : CacheStorage)
  : CacheStorage :=
  match s with
  | [] => []
  | (n, c) :: s' =>
      if String.eqb n name then (n, f c) :: s'
      else (n, c) :: storage_update name f s'
  end.

(** [caches.delete(name)]. *)
Definition storage_delete (name : string) (s : CacheStorage) : CacheStorage :=
  List.filter (fun g => negb (String.eqb (fst g) name)) s.

Definition storage_keys (s : CacheStorage) : list string := map fst s.

(** ** Synchronous code and promises *)

(** Code that runs now. *)
Definition Sync (A : Type) : Type := Host -> A * Host.

Definition pure {A} (v : A) : Sync A := fun h => (v, h).

Definition bind {A B} (c : Sync A) (k : A -> Sync B) : Sync B :=
  fun h => let '(v, h') := c h in k v h'.

Declare Scope sync_scope.
Delimit Scope sync_scope with sync.
Notation "x <- c ;; k" := (bind c (fun x => k))
  (at level 100, c at next level, right associativity) : sync_scope.
Notation "c ;; k" := (bind c (fun _ => k))
  (at level 100, right associativity) : sync_scope.
Local Open Scope sync_scope.

Inductive Settled (A : Type) : Type :=
| Fulfilled (v : A)
| Rejected.
Arguments Fulfilled {A} v.
Arguments Rejected {A}.

(** What happens when the promise is run to its settlement. *)
Definition Promise (A : Type) : Type := Host -> Settled A * Host.

Definition resolve {A} (v : A) : Promise A := fun h => (Fulfilled v, h).

(** [p.then(callback)]: the callback is synchronous code, run when [p] has
    fulfilled; the promise it returns is then run in turn. *)
Definition and_then {A B} (p : Promise A) (callback : A -> Sync (Promise B))
  : Promise B :=
  fun h =>
    match p h with
    | (Fulfilled v, h1) => let '(q, h2) := callback v h1 in q h2
    | (Rejected, h1) => (Rejected, h1)
    end.

(** [p.catch(callback)] *)
Definition catch {A} (p : Promise A) (callback : Sync (Promise A)) : Promise A :=
  fun h =>
    match p h with
    | (Fulfilled v, h1) => (Fulfilled v, h1)
    | (Rejected, h1) => let '(q, h2) := callback h1 in q h2
    end.

(** A promise of a value, where a value or [undefined] is expected. *)
Definition defined {A} (p : Promise A) : Promise (option A) :=
  fun h =>
    match p h with
    | (Fulfilled v, h1) => (Fulfilled (Some v), h1)
    | (Rejected, h1) => (Rejected, h1)
    end.

(** [Promise.all] over an array of promises and [null]s. *)
Fixpoint promise_all {A} (ps : list (option (Promise A))) : Promise (list (option A)) :=
  match ps with
  | [] => resolve []
  | None :: ps' =>
      fun h =>
        match promise_all ps' h with
        | (Fulfilled vs, h1) => (Fulfilled (None :: vs), h1)
        | (Rejected, h1) => (Rejected, h1)
        end
  | Some p :: ps' =>
      fun h =>
        match p h with
        | (Fulfilled v, h1) =>
            match promise_all ps' h1 with
            | (Fulfilled vs, h2) => (Fulfilled (Some v :: vs), h2)
            | (Rejected, h2) => (Rejected, h2)
            end
        | (Rejected, h1) => (Rejected, snd (promise_all ps' h1))
        end
  end.

(** [array.map(f)] where [f] makes calls. *)
Fixpoint map_sync {A B} (f : A -> Sync B) (l : list A) : Sync (list B) :=
  match l with
  | [] => pure []
  | x :: l' => y <- f x ;; ys <- map_sync f l' ;; pure (y :: ys)
  end.

(** ** The host interface

    [fetch], [caches] and an opened [Cache] are provided by the browser.
    Each function logs the call and returns the promise of its outcome. *)

Definition issue {A} (c : HostCall) (outcome : Promise A) : Sync (Promise A) :=
  fun h => (outcome, log c h).

Definition fetch (net : Network) (r : Request) : Sync (Promise Response) :=
  issue (CallFetch r)
    (fun h => (match net r with Some resp => Fulfilled resp | None => Rejected end, h)).

Definition caches_match (r : Request) : Sync (Promise (option Response)) :=
  issue (CallCachesMatch r)
    (fun h => (Fulfilled (storage_match (caches h) r), h)).

(** The generation exists once the promise of [caches.open] has fulfilled;
    the opened cache is referred to by its name. *)
Definition opening (name : string) : Promise string :=
  fun h => (Fulfilled name, set_caches (storage_open name (caches h)) h).

Definition caches_open (name : string) : Sync (Promise string) :=
  issue (CallCachesOpen name) (opening name).

Definition caches_keys : Sync (Promise (list string)) :=
  issue CallCachesKeys (fun h => (Fulfilled (storage_keys (caches h)), h)).

(** The generation is gone once the promise of [caches.delete] has
    fulfilled, with [true] if there was one. *)
Definition deleting (name : string) : Promise bool :=
  fun h =>
    (Fulfilled (has_generation name (caches h)),
     set_caches (storage_delete name (caches h)) h).

Definition caches_delete (name : string) : Sync (Promise bool) :=
  issue (CallCachesDelete name) (deleting name).

Definition cache_put (c : string) (r : Request) (resp : Response)
  : Sync (Promise unit) :=
  issue (CallCachePut c r resp)
    (fun h =>
       if put_accepts r resp
       then (Fulfilled tt,
             set_caches (storage_update c (fun m => <[url r := resp]> m) (caches h)) h)
       else (Rejected, h)).

(** The fetches of [cache.addAll]: all of them, or nothing. *)
Fixpoint fetch_all (net : Network) (rs : list Request)
  : option (list (Request * Response)) :=
  match rs with
  | [] => Some []
  | r :: rs' =>
      match net r, fetch_all net rs' with
      | Some resp, Some l => Some ((r, resp) :: l)
      | _, _ => None
      end
  end.

Definition put_all (l : list (Request * Response)) (m : Cache) : Cache :=
  fold_left (fun acc e => <[url (fst e) := snd e]> acc) l m.

Section Worker.

(** The origin the worker is served from: a path given to [caches.match] or
    [cache.addAll] denotes the GET request of that path on this origin. *)
Variable origin : string.

(** [new URL(u).pathname] *)
Variable pathname : string -> string.

Definition request_of (path : string) : Request :=
  {| method := "GET"; url := origin ++ path; mode := "cors" |}.

(** [cache.addAll(paths)] stores nothing unless every fetch resolves with
    a response it accepts. *)
Definition cache_addAll (net : Network) (c : string) (paths : list string)
  : Sync (Promise unit) :=
  issue (CallCacheAddAll c paths)
    (fun h =>
       match fetch_all net (map request_of paths) with
       | Some l =>
           if forallb addAll_accepts l
           then (Fulfilled tt, set_caches (storage_update c (put_all l) (caches h)) h)
           else (Rejected, h)
       | None => (Rejected, h)
       end).

Definition skipWaiting : Sync unit := fun h => (tt, log CallSkipWaiting h).

Definition clientsClaim : Sync unit := fun h => (tt, log CallClientsClaim h).

(** ** Background work *)

(** Leave a chain unawaited. *)
Definition detach (j : Job) : Sync unit := fun h => (tt, spawn j h).

(** The chain a job stands for: [caches.open(CACHE_NAME)] has been
    called; once it fulfils, the callback calls [c.put(request, copy)].
    Nobody looks at the outcome. *)
Definition run_job (j : Job) : Promise unit :=
  match j with
  | Refill r copy => and_then (opening CACHE_NAME) (fun c => cache_put c r copy)
  end.

(** Run the pending job at position [i], if there is one. *)
Definition run_pending (i : nat) (h : Host) : Host :=
  match background h !! i with
  | Some j => snd (run_job j (set_background (delete i (background h)) h))
  | None => h
  end.

(** Run pending jobs in the order given by the positions. *)
Definition drain (order : list nat) (h : Host) : Host :=
  fold_left (fun h' i => run_pending i h') order h.

(** ** The listeners *)

(** [event.waitUntil(p)]: the event lasts until [p] settles, and fails when
    [p] rejects. *)
Definition waitUntil {A} (p : Promise A) : Sync (Promise A) := pure p.

(** What a fetch event ends with: the listener returned without calling
    [respondWith], or it handed over a promise, here with its outcome
    ([None] is [undefined]). *)
Inductive Interception : Type :=
| PassThrough
| RespondWith (outcome : Settled (option Response)).

(** The listener's code runs, then the promise it gave to the event. *)
Definition respondWith (listener : Sync (Promise (option Response))) (h : Host)
  : Interception * Host :=
  let '(p, h1) := listener h in
  let '(r, h2) := p h1 in
  (RespondWith r, h2).

(** Install: cache the app shell. *)
Definition install_handler (net : Network) : Promise unit :=
  fun h =>
    let '(lasting, h1) :=
      (opened <- caches_open CACHE_NAME ;;
       lasting <- waitUntil
                    (and_then opened (fun cache => cache_addAll net cache ASSETS)) ;;
       skipWaiting ;;
       pure lasting) h in
    lasting h1.

(** [keys.map(k => (k !== CACHE_NAME ? caches.delete(k) : null))] *)
Definition delete_stale (keys : list string) : Sync (list (option (Promise bool))) :=
  map_sync (fun k =>
              if negb (String.eqb k CACHE_NAME)
              then (deleting <- caches_delete k ;; pure (Some deleting))
              else pure None)
           keys.

(** Activate: clean up old caches. *)
Definition activate_handler : Promise (list (option bool)) :=
  fun h =>
    let '(lasting, h1) :=
      (listed <- caches_keys ;;
       lasting <- waitUntil
                    (and_then listed
                       (fun keys => deleting <- delete_stale keys ;;
                                    pure (promise_all deleting))) ;;
       clientsClaim ;;
       pure lasting) h in
    lasting h1.

(** Fetch: network-first for the API, cache-first for the rest. *)
Definition fetch_handler (net : Network) (request : Request) (h : Host)
  : Interception * Host :=
  let path := pathname (url request) in
  if negb (String.eqb (method request) "GET") then (PassThrough, h)
  else if String.prefix "/api/" path then
    respondWith
      (fetched <- fetch net request ;;
       pure (catch (defined fetched) (caches_match request))) h
  else
    respondWith
      (looked <- caches_match request ;;
       pure (and_then looked (fun cached =>
         match cached with
         | Some hit => pure (resolve (Some hit))
         | None =>
             fetched <- fetch net request ;;
             pure (catch
                     (and_then fetched (fun resp =>
                        let copy := clone resp in
                        _ <- caches_open CACHE_NAME ;;
                        detach (Refill request copy) ;;
                        pure (resolve (Some resp))))
                     (if String.eqb (mode request) "navigate"
                      then caches_match (request_of "/static/index.html")
                      else pure (resolve None)))
         end))) h.

End Worker.
(** ** Observations on the log *)

Definition is_fetch (c : HostCall) : bool :=
  match c with CallFetch _ => true | _ => false end.

(** Number of network fetches the script has issued so far. *)
Definition network_fetches (l : list HostCall) : nat :=
  length (List.filter is_fetch l).

(** The calls the fetch listener and its refill can make: the network, the
    storage-wide match, and opening and writing one generation. *)
Definition refill_or_read (c : HostCall) : bool :=
  match c with
  | CallFetch _ | CallCachesMatch _ => true
  | CallCachesOpen n | CallCachePut n _ _ => String.eqb n CACHE_NAME
  | _ => false
  end.

(** A lookup confined to the current generation, as
    [caches.open(CACHE_NAME).then((c) => c.match(request))] would do it:
    the reading "look up the request in the current cache generation". *)
Definition current_generation_match (s : CacheStorage) (r : Request)
  : option Response :=
  match generation CACHE_NAME s with
  | Some c => cache_lookup c r
  | None => None
  end.


Definition job_url (j : Job) : string :=
  match j with Refill r _ => url r end.




(** The URLs the manifest denotes on an origin. *)
Definition asset_urls (origin : string) : list string :=
  map (fun p => url (request_of origin p)) ASSETS.

(** Every fetch of the manifest resolves with a response that
    [cache.addAll] accepts. *)
Definition manifest_served (origin : string) (net : Network) : Prop :=
  forall p, In p ASSETS ->
    exists resp, net (request_of origin p) = Some resp
                 /\ addAll_accepts (request_of origin p, resp) = true.

(** ** The life of an installed worker: fetch events, activations, and
    pending refills running, one at a time and in any order *)

Inductive Step : Type :=
| OnFetch (net : Network) (request : Request)
| OnActivate
| RunRefill (i : nat).

Definition step (origin : string) (pathname : string -> string) (h : Host) (e : Step)
  : Host :=
  match e with
  | OnFetch net request => snd (fetch_handler origin pathname net request h)
  | OnActivate => snd (activate_handler h)
  | RunRefill i => run_pending i h
  end.


(** ** A small URL parser, for concrete runs

    Enough of [new URL(u).pathname] for [scheme://authority/path?query#frag]. *)

Definition is_delim (stops : list ascii) (c : ascii) : bool :=
  existsb (Ascii.eqb c) stops.

Fixpoint after_colon (s : string) : string :=
  match s with
  | EmptyString => EmptyString
  | String c s' => if Ascii.eqb c ":" then s' else after_colon s'
  end.

Fixpoint drop_until (stops : list ascii) (s : string) : string :=
  match s with
  | EmptyString => EmptyString
  | String c s' => if is_delim stops c then s else drop_until stops s'
  end.

Fixpoint take_until (stops : list ascii) (s : string) : string :=
  match s with
  | EmptyString => EmptyString
  | String c s' => if is_delim stops c then EmptyString else String c (take_until stops s')
  end.

Definition url_pathname (u : string) : string :=
  let rest := substring 2 (String.length (after_colon u)) (after_colon u) in
  let p := take_until ["?"; "#"]%char (drop_until ["/"; "?"; "#"]%char rest) in
  if String.eqb p "" then "/" else p.

(** ** Sample data *)

Module Sample.

Definition origin : string := "https://noted.example".

Definition get (u : string) (m : string) : Request :=
  {| method := "GET"; url := origin ++ u; mode := m |}.

Definition page : Response :=
  {| status := 200; headers := [("content-type", "text/html")]; body := "<html>noted</html>" |}.

Definition old_page : Response :=
  {| status := 200; headers := [("content-type", "text/html")]; body := "<html>old</html>" |}.

Definition notes_json : Response :=
  {| status := 200; headers := [("content-type", "application/json")]; body := "[]" |}.

Definition not_found : Response :=
  {| status := 404; headers := []; body := "Not Found" |}.

Definition server_error : Response :=
  {| status := 500; headers := []; body := "Internal Server Error" |}.

Definition script : Response :=
  {| status := 200; headers := [("content-type", "text/javascript")]; body := "main()" |}.

Definition old_script : Response :=
  {| status := 200; headers := [("content-type", "text/javascript")]; body := "old()" |}.

(** A generation left over from an earlier version, created first, and the
    current one, each with its own copy of /app.js. *)
Definition stale_first : CacheStorage :=
  [ ("didit-cache-v0", {[ (origin ++ "/app.js")%string := old_script ]});
    (CACHE_NAME, {[ (origin ++ "/app.js")%string := script ]}) ].


Definition host_of (s : CacheStorage) : Host :=
  {| caches := s; calls := []; background := [] |}.

Definition offline : Network := fun _ => None.

Definition serving (resp : Response) : Network := fun _ => Some resp.

(** Every URL answers except one. *)
Definition all_but (u : string) (resp : Response) : Network :=
  fun r => if String.eqb (url r) (origin ++ u)%string then None else Some resp.

(** The shell as a successful install leaves it. *)
Definition shell : Cache :=
  list_to_map (map (fun p => ((origin ++ p)%string, page)) ASSETS).

End Sample.

(** ** The whole life of a worker: installs as well *)

Inductive Event : Type :=
| OnInstall (net : Network)
| Then (e : Step).

Definition occur (origin : string) (pathname : string -> string) (h : Host) (ev : Event)
  : Host :=
  match ev with
  | OnInstall net => snd (install_handler origin net h)
  | Then e => step origin pathname h e
  end.

Definition life (origin : string) (pathname : string -> string) (evs : list Event)
    (h : Host) : Host :=
  fold_left (occur origin pathname) evs h.


(** Nothing matches [q], and no pending refill is about to store it. *)
Definition unanswered (q : Request) (h : Host) : Prop :=
  storage_match (caches h) q = None
  /\ Forall (fun j => job_url j <> url q) (background h).

(** * Properties *)

#[local] Arguments String.eqb : simpl never.
#[local] Arguments String.prefix : simpl never.

(** ** The storage *)

Section Storage.

Implicit Types (s : CacheStorage) (c : Cache) (r q : Request) (v : Response).


Lemma cache_lookup_put_other c r q v :
  url r <> url q -> cache_lookup (<[url r := v]> c) q = cache_lookup c q.
Proof.
  intros Hne. unfold cache_lookup. destruct (String.eqb (method q) "GET"); [|reflexivity].
  by rewrite lookup_insert_ne.
Qed.

Lemma cache_lookup_empty r : cache_lookup ∅ r = None.
Proof. unfold cache_lookup. destruct (String.eqb _ _); [apply lookup_empty | reflexivity]. Qed.



Lemma storage_match_app s1 s2 r :
  storage_match (s1 ++ s2) r
  = match storage_match s1 r with
    | Some v => Some v
    | None => storage_match s2 r
    end.
Proof.
  induction s1 as [|[n c] s1 IH]; simpl; [reflexivity|].
  destruct (cache_lookup c r); [reflexivity | exact IH].
Qed.

Lemma storage_match_open name s r :
  storage_match (storage_open name s) r = storage_match s r.
Proof.
  unfold storage_open. destruct (has_generation name s); [reflexivity|].
  rewrite storage_match_app. simpl. rewrite cache_lookup_empty.
  destruct (storage_match s r); reflexivity.
Qed.

Lemma storage_match_put_other name s r q v :
  url r <> url q ->
  storage_match (storage_update name (fun m => <[url r := v]> m) s) q
  = storage_match s q.
Proof.
  intros Hne. induction s as [|[n c] s IH]; simpl; [reflexivity|].
  destruct (String.eqb n name); simpl.
  - rewrite (cache_lookup_put_other c r q v Hne). reflexivity.
  - rewrite IH. reflexivity.
Qed.

(** The entry of the first generation that has one is the match, whatever
    that generation is called. *)
Lemma storage_match_first older name c newer r v :
  Forall (fun g => cache_lookup (snd g) r = None) older ->
  cache_lookup c r = Some v ->
  storage_match (older ++ (name, c) :: newer) r = Some v.
Proof.
  intros Hold Hc. induction Hold as [|[n c'] older Hg _ IH]; simpl.
  - rewrite Hc. reflexivity.
  - simpl in Hg. rewrite Hg. exact IH.
Qed.





Lemma has_generation_open name s :
  has_generation name (storage_open name s) = true.
Proof.
  unfold storage_open. destruct (has_generation name s) eqn:E; [exact E|].
  unfold has_generation. rewrite existsb_app. simpl.
  rewrite String.eqb_refl. apply orb_true_iff. right. reflexivity.
Qed.

Lemma has_generation_update name f s :
  has_generation name (storage_update name f s) = has_generation name s.
Proof.
  unfold has_generation. induction s as [|[n c] s IH]; simpl; [reflexivity|].
  destruct (String.eqb n name) eqn:E; simpl; rewrite E; simpl; [reflexivity | exact IH].
Qed.


Lemma generation_open_other name s :
  name <> CACHE_NAME ->
  generation name (storage_open CACHE_NAME s) = generation name s.
Proof.
  intros Hne. unfold storage_open. destruct (has_generation CACHE_NAME s); [reflexivity|].
  induction s as [|[n c] s IH]; simpl.
  - destruct (String.eqb_spec CACHE_NAME name); [congruence | reflexivity].
  - destruct (String.eqb n name); [reflexivity | exact IH].
Qed.

Lemma generation_update_other name f s :
  name <> CACHE_NAME ->
  generation name (storage_update CACHE_NAME f s) = generation name s.
Proof.
  intros Hne. induction s as [|[n c] s IH]; simpl; [reflexivity|].
  destruct (String.eqb_spec n CACHE_NAME) as [->|Hn]; simpl.
  - destruct (String.eqb_spec CACHE_NAME name); [congruence | reflexivity].
  - destruct (String.eqb n name); [reflexivity | exact IH].
Qed.



End Storage.

(** ** Background refills *)

Section Background.

Implicit Types (h : Host) (j : Job) (js : list Job) (r q : Request) (s : CacheStorage).

Lemma clone_same (resp : Response) : clone resp = resp.
Proof. destruct resp; reflexivity. Qed.

(** What a refill does to the storage when it runs: the generation is
    there, and the entry is written if the cache accepts it. *)
Lemma run_job_caches r copy h :
  caches (snd (run_job (Refill r copy) h))
  = if put_accepts r copy
    then storage_update CACHE_NAME (fun m => <[url r := copy]> m)
           (storage_open CACHE_NAME (caches h))
    else storage_open CACHE_NAME (caches h).
Proof.
  unfold run_job, and_then, opening, cache_put, issue. simpl.
  destruct (put_accepts r copy); reflexivity.
Qed.

Lemma run_job_calls r copy h :
  calls (snd (run_job (Refill r copy) h))
  = calls h ++ [CallCachePut CACHE_NAME r copy].
Proof.
  unfold run_job, and_then, opening, cache_put, issue. simpl.
  destruct (put_accepts r copy); reflexivity.
Qed.

Lemma run_job_background j h : background (snd (run_job j h)) = background h.
Proof.
  destruct j as [r copy]. unfold run_job, and_then, opening, cache_put, issue. simpl.
  destruct (put_accepts r copy); reflexivity.
Qed.

Lemma run_pending_some i h j :
  background h !! i = Some j ->
  run_pending i h = snd (run_job j (set_background (delete i (background h)) h)).
Proof. intros H. unfold run_pending. rewrite H. reflexivity. Qed.

Lemma run_pending_none i h :
  background h !! i = None -> run_pending i h = h.
Proof. intros H. unfold run_pending. rewrite H. reflexivity. Qed.

Lemma drain_cons i (order : list nat) h :
  drain (i :: order) h = drain order (run_pending i h).
Proof. reflexivity. Qed.

(** A property of the storage that every refill among the pending ones
    keeps is kept by running any of them. *)
Lemma run_pending_keeps (I : CacheStorage -> Prop) (Q : Job -> Prop) i h :
  (forall s r copy,
     Q (Refill r copy) -> I s ->
     I (storage_open CACHE_NAME s)
     /\ I (storage_update CACHE_NAME (fun m => <[url r := copy]> m)
             (storage_open CACHE_NAME s))) ->
  Forall Q (background h) ->
  I (caches h) ->
  I (caches (run_pending i h)) /\ Forall Q (background (run_pending i h)).
Proof.
  intros Hkeep HQ HI. destruct (background h !! i) as [j|] eqn:Hi.
  - rewrite (run_pending_some i h j Hi), run_job_background. cbn [background set_background].
    split; [|apply Forall_delete, HQ].
    destruct j as [r copy]. rewrite run_job_caches. cbn [caches set_background].
    assert (Hj : Q (Refill r copy)).
    { eapply Forall_forall in HQ; [exact HQ|]. eapply list_elem_of_lookup_2, Hi. }
    destruct (Hkeep (caches h) r copy Hj HI) as [Hopen Hput].
    destruct (put_accepts r copy); assumption.
  - rewrite (run_pending_none i h Hi). auto.
Qed.

Lemma drain_keeps (I : CacheStorage -> Prop) (Q : Job -> Prop) (order : list nat) h :
  (forall s r copy,
     Q (Refill r copy) -> I s ->
     I (storage_open CACHE_NAME s)
     /\ I (storage_update CACHE_NAME (fun m => <[url r := copy]> m)
             (storage_open CACHE_NAME s))) ->
  Forall Q (background h) ->
  I (caches h) ->
  I (caches (drain order h)) /\ Forall Q (background (drain order h)).
Proof.
  intros Hkeep. revert h. induction order as [|i order IH]; intros h HQ HI; [auto|].
  rewrite drain_cons.
  destruct (run_pending_keeps I Q i h Hkeep HQ HI) as [HI' HQ']. apply IH; assumption.
Qed.

(** *** What running refills keeps *)


Lemma run_pending_match_other q i h :
  Forall (fun j => job_url j <> url q) (background h) ->
  storage_match (caches (run_pending i h)) q = storage_match (caches h) q
  /\ Forall (fun j => job_url j <> url q) (background (run_pending i h)).
Proof.
  intros Hjs.
  apply (run_pending_keeps (fun s => storage_match s q = storage_match (caches h) q)
           (fun j => job_url j <> url q)); [|exact Hjs|reflexivity].
  intros s r copy Hr Hs. simpl in Hr. split.
  - rewrite storage_match_open. exact Hs.
  - rewrite storage_match_put_other by exact Hr. rewrite storage_match_open. exact Hs.
Qed.

Lemma drain_generation_other name (order : list nat) h :
  name <> CACHE_NAME ->
  generation name (caches (drain order h)) = generation name (caches h).
Proof.
  intros Hne.
  apply (drain_keeps (fun s => generation name s = generation name (caches h))
           (fun _ => True)); [|apply Forall_true; auto|reflexivity].
  intros s r copy _ Hs. split.
  - rewrite generation_open_other by exact Hne. exact Hs.
  - rewrite generation_update_other, generation_open_other by exact Hne. exact Hs.
Qed.

(** *** What running refills logs *)

Lemma run_pending_calls i h :
  calls (run_pending i h) = calls h
  \/ exists r copy, calls (run_pending i h) = calls h ++ [CallCachePut CACHE_NAME r copy].
Proof.
  destruct (background h !! i) as [[r copy]|] eqn:Hi.
  - right. exists r, copy. rewrite (run_pending_some i h _ Hi), run_job_calls. reflexivity.
  - left. rewrite (run_pending_none i h Hi). reflexivity.
Qed.

Lemma drain_calls (order : list nat) h :
  exists new, calls (drain order h) = calls h ++ new
              /\ forallb refill_or_read new = true
              /\ network_fetches new = 0.
Proof.
  revert h. induction order as [|i order IH]; intros h.
  - exists []. rewrite app_nil_r. auto.
  - rewrite drain_cons. destruct (IH (run_pending i h)) as (new & Hc & Hok & Hnf).
    destruct (run_pending_calls i h) as [E | (r & copy & E)]; rewrite E in Hc.
    + exists new. auto.
    + exists (CallCachePut CACHE_NAME r copy :: new). rewrite Hc, <- app_assoc.
      repeat split; [simpl; exact Hok | exact Hnf].
Qed.

(** *** Pending work can always be brought to an end *)


(** *** The refill of one request *)




End Background.

(** ** Install and activate *)

Section Lifecycle.

Variable origin : string.

Local Abbreviation on_install := (install_handler origin).
Local Abbreviation manifest_requests := (map (request_of origin) ASSETS).

Implicit Types (s : CacheStorage) (h : Host) (net : Network).

(** *** Activation *)

Local Abbreviation stale := (fun k : string => negb (String.eqb k CACHE_NAME)).

(** The deletions are called for in the order of the names; each leaves a
    promise, the current name a [null]. *)
Lemma delete_stale_issues (keys : list string) h :
  delete_stale keys h
  = (map (fun k => if stale k then Some (deleting k) else None) keys,
     {| caches := caches h;
        calls := calls h ++ map CallCachesDelete (List.filter stale keys);
        background := background h |}).
Proof.
  revert h. induction keys as [|k keys IH]; intros h.
  - unfold delete_stale. simpl. unfold pure. rewrite app_nil_r. destruct h; reflexivity.
  - unfold delete_stale in *. cbn [map_sync map List.filter]. unfold bind at 1.
    destruct (negb (String.eqb k CACHE_NAME)); simpl.
    + unfold bind, caches_delete, issue, pure. cbn beta iota.
      fold (@bind (list (option (Promise bool)))).
      unfold bind. rewrite IH. simpl. rewrite <- app_assoc. reflexivity.
    + unfold bind, pure. rewrite IH. reflexivity.
Qed.

Lemma promise_all_deleting (keys : list string) h :
  exists results,
    promise_all (map (fun k => if stale k then Some (deleting k) else None) keys) h
    = (Fulfilled results,
       set_caches (fold_left (fun s k => storage_delete k s)
                     (List.filter stale keys) (caches h)) h).
Proof.
  revert h. induction keys as [|k keys IH]; intros h.
  - exists []. destruct h; reflexivity.
  - cbn [map List.filter]. destruct (negb (String.eqb k CACHE_NAME)); cbn [promise_all].
    + unfold deleting at 1.
      destruct (IH (set_caches (storage_delete k (caches h)) h)) as [results ->].
      eexists. reflexivity.
    + destruct (IH h) as [results ->]. eexists. reflexivity.
Qed.

Lemma filter_filter {A} (f g : A -> bool) (l : list A) :
  List.filter f (List.filter g l) = List.filter (fun x => g x && f x) l.
Proof.
  induction l as [|x l IH]; simpl; [reflexivity|].
  destruct (g x); simpl; [destruct (f x)|]; rewrite IH; reflexivity.
Qed.

Lemma delete_each dels s :
  fold_left (fun s' k => storage_delete k s') dels s
  = List.filter (fun g => negb (existsb (String.eqb (fst g)) dels)) s.
Proof.
  revert s. induction dels as [|k dels IH]; intros s; simpl.
  - induction s as [|g s IHs]; simpl; [reflexivity | by rewrite <- IHs].
  - rewrite IH. unfold storage_delete. rewrite filter_filter.
    apply filter_ext. intros g. rewrite negb_orb. reflexivity.
Qed.

Lemma named_among_stale (n : string) (keys : list string) :
  In n keys ->
  existsb (String.eqb n) (List.filter stale keys) = negb (String.eqb n CACHE_NAME).
Proof.
  intros Hin. destruct (String.eqb_spec n CACHE_NAME) as [->|Hne]; simpl.
  - apply not_true_is_false. intros H. apply existsb_exists in H as (k & Hk & E).
    apply filter_In in Hk as [_ Hk]. apply String.eqb_eq in E. subst k.
    rewrite String.eqb_refl in Hk. discriminate.
  - apply existsb_exists. exists n. split; [|apply String.eqb_refl].
    apply filter_In. split; [exact Hin|].
    destruct (String.eqb_spec n CACHE_NAME); [contradiction | reflexivity].
Qed.

(** Deleting every stale name leaves the generations called [CACHE_NAME]. *)
Lemma sweep_storage s :
  fold_left (fun s' k => storage_delete k s') (List.filter stale (storage_keys s)) s
  = List.filter (fun g => String.eqb (fst g) CACHE_NAME) s.
Proof.
  rewrite delete_each. apply filter_ext_in. intros g Hg.
  rewrite named_among_stale, negb_involutive; [reflexivity|].
  unfold storage_keys. apply in_map, Hg.
Qed.

Lemma activate_equation h :
  exists results,
    activate_handler h
    = (Fulfilled results,
       {| caches := List.filter (fun g => String.eqb (fst g) CACHE_NAME) (caches h);
          calls := calls h ++ [CallCachesKeys; CallClientsClaim]
                     ++ map CallCachesDelete (List.filter stale (storage_keys (caches h)));
          background := background h |}).
Proof.
  unfold activate_handler, bind, caches_keys, issue, waitUntil, clientsClaim, pure,
    and_then. cbn beta iota. cbn [caches log].
  rewrite delete_stale_issues.
  match goal with |- context [promise_all ?ps ?h0] =>
    destruct (promise_all_deleting (storage_keys (caches h)) h0) as [results E] end.
  rewrite E. exists results. unfold set_caches. cbn [caches calls background log].
  rewrite sweep_storage, <- !app_assoc. reflexivity.
Qed.

Lemma generation_filter_current s :
  generation CACHE_NAME (List.filter (fun g => String.eqb (fst g) CACHE_NAME) s)
  = generation CACHE_NAME s.
Proof.
  induction s as [|[n c] s IH]; simpl; [reflexivity|].
  destruct (String.eqb n CACHE_NAME) eqn:E; simpl; rewrite ?E; [reflexivity | exact IH].
Qed.

(** C7: activation asks for the names and takes control of the clients;
    then it deletes, in the order of the names, each name that differs
    from "didit-cache-v1" and no other; what remains are the generations
    of that name, contents untouched.  From
    ["didit-cache-v0"; "didit-cache-v1"] only "didit-cache-v1" remains. *)
Theorem activate_deletes_stale_generations (h : Host) (c0 c1 : Cache) :
  let after := snd (activate_handler h) in
  let deleted := List.filter stale (storage_keys (caches h)) in
  calls after
    = calls h ++ [CallCachesKeys; CallClientsClaim] ++ map CallCachesDelete deleted
  /\ (forall k, In k (storage_keys (caches h)) ->
      (In k deleted <-> k <> CACHE_NAME))
  /\ ~ In CACHE_NAME deleted
  /\ caches after = List.filter (fun g => String.eqb (fst g) CACHE_NAME) (caches h)
  /\ generation CACHE_NAME (caches after) = generation CACHE_NAME (caches h)
  /\ (exists results, fst (activate_handler h) = Fulfilled results)
  /\ caches (snd (activate_handler
                    {| caches := [("didit-cache-v0", c0); ("didit-cache-v1", c1)];
                       calls := calls h; background := background h |}))
     = [("didit-cache-v1", c1)].
Proof.
  intros after deleted. subst after deleted.
  destruct (activate_equation h) as [results E].
  destruct (activate_equation
              {| caches := [("didit-cache-v0", c0); ("didit-cache-v1", c1)];
                 calls := calls h; background := background h |}) as [results0 E0].
  rewrite E, E0. cbn [fst snd caches calls]. repeat apply conj.
  - reflexivity.
  - intros k Hk. rewrite filter_In.
    destruct (String.eqb_spec k CACHE_NAME) as [->|Hne]; simpl.
    + split; [intros [_ H]; discriminate | intros H; contradiction].
    + split; [intros _; exact Hne | intros _; split; [exact Hk | reflexivity]].
  - rewrite filter_In. rewrite String.eqb_refl. simpl. intros [_ H]. discriminate.
  - reflexivity.
  - apply generation_filter_current.
  - exists results. reflexivity.
  - reflexivity.
Qed.

(** *** Installation *)

Lemma append_inj (a b c : string) : (a ++ b)%string = (a ++ c)%string -> b = c.
Proof.
  induction a as [|x a IH]; simpl; intros H; [exact H|].
  injection H as H. exact (IH H).
Qed.

Lemma asset_urls_distinct : NoDup (asset_urls origin).
Proof.
  unfold asset_urls. apply NoDup_fmap_2.
  - intros p p' H. simpl in H. exact (append_inj _ _ _ H).
  - compute_done.
Qed.

Lemma fetch_all_rejected net (rs : list Request) (r : Request) :
  In r rs -> net r = None -> fetch_all net rs = None.
Proof.
  induction rs as [|r' rs IH]; intros Hin Hnone; simpl; [destruct Hin|].
  destruct Hin as [-> | Hin].
  - rewrite Hnone. reflexivity.
  - rewrite (IH Hin Hnone). destruct (net r'); reflexivity.
Qed.

Lemma fetch_all_requests net (rs : list Request) (l : list (Request * Response)) :
  fetch_all net rs = Some l -> map fst l = rs.
Proof.
  revert l. induction rs as [|r rs IH]; simpl; intros l.
  - intros [= <-]. reflexivity.
  - destruct (net r); [|discriminate].
    destruct (fetch_all net rs) as [l'|]; [|discriminate].
    intros [= <-]. simpl. rewrite (IH l' eq_refl). reflexivity.
Qed.

Lemma put_all_other (l : list (Request * Response)) (m : Cache) (u : string) :
  ~ In u (map (fun e => url (fst e)) l) -> put_all l m !! u = m !! u.
Proof.
  revert m. induction l as [|[r v] l IH]; intros m Hu; simpl; [reflexivity|].
  unfold put_all in *. simpl in *. rewrite IH by tauto.
  apply lookup_insert_ne. tauto.
Qed.

Lemma put_all_member (l : list (Request * Response)) (m : Cache) (r : Request)
    (v : Response) :
  NoDup (map (fun e => url (fst e)) l) ->
  In (r, v) l -> put_all l m !! url r = Some v.
Proof.
  revert m. induction l as [|[r' v'] l IH]; intros m Hnd Hin; [destruct Hin|].
  apply NoDup_cons in Hnd as [Hfresh Hnd]. unfold put_all in *. simpl in *.
  destruct Hin as [E | Hin].
  - injection E as -> ->.
    change (put_all l (<[url r := v]> m) !! url r = Some v).
    rewrite put_all_other; [apply lookup_insert_eq|].
    intros H. apply Hfresh. apply list_elem_of_In. exact H.
  - apply IH; assumption.
Qed.

Lemma generation_open_update (f : Cache -> Cache) s :
  generation CACHE_NAME (storage_update CACHE_NAME f (storage_open CACHE_NAME s))
  = Some (f (default ∅ (generation CACHE_NAME s))).
Proof.
  unfold storage_open. destruct (has_generation CACHE_NAME s) eqn:Hhas.
  - induction s as [|[n c] s IH]; simpl in *; [discriminate|].
    destruct (String.eqb n CACHE_NAME) eqn:E; simpl; rewrite E; [reflexivity|].
    simpl in Hhas. apply IH, Hhas.
  - induction s as [|[n c] s IH]; simpl in *.
    + reflexivity.
    + destruct (String.eqb n CACHE_NAME) eqn:E; simpl in *; [discriminate|].
      rewrite E. apply IH, Hhas.
Qed.

Lemma manifest_keys (l : list (Request * Response)) :
  map fst l = manifest_requests ->
  map (fun e => url (fst e)) l = asset_urls origin.
Proof.
  intros H. unfold asset_urls. rewrite <- (map_map (request_of origin) url), <- H.
  rewrite map_map. reflexivity.
Qed.

Lemma fetch_all_values net (rs : list Request) (l : list (Request * Response)) :
  fetch_all net rs = Some l -> forall r v, In (r, v) l -> net r = Some v.
Proof.
  revert l. induction rs as [|r rs IH]; simpl; intros l.
  - intros [= <-] r v [].
  - destruct (net r) as [resp|] eqn:Hr; [|discriminate].
    destruct (fetch_all net rs) as [l'|]; [|discriminate].
    intros [= <-] r' v' [E | Hin]; [injection E as <- <-; exact Hr|].
    exact (IH l' eq_refl r' v' Hin).
Qed.

Lemma fetch_all_member net (rs : list Request) (l : list (Request * Response))
    (r : Request) (v : Response) :
  fetch_all net rs = Some l -> In r rs -> net r = Some v -> In (r, v) l.
Proof.
  revert l. induction rs as [|r' rs IH]; simpl; intros l; [intros _ []|].
  destruct (net r') as [resp|] eqn:Hr'; [|discriminate].
  destruct (fetch_all net rs) as [l'|]; [|discriminate].
  intros [= <-] [-> | Hin] Hv.
  - left. congruence.
  - right. exact (IH l' eq_refl Hin Hv).
Qed.

(** A served manifest is fetched whole, and accepted. *)
Lemma manifest_fetched net :
  manifest_served origin net ->
  exists l, fetch_all net manifest_requests = Some l
            /\ forallb addAll_accepts l = true
            /\ map fst l = manifest_requests
            /\ forall r v, In (r, v) l -> net r = Some v.
Proof.
  intros Hserved.
  assert (Hall : forall rs, (forall r, In r rs -> In r manifest_requests) ->
                            exists l, fetch_all net rs = Some l).
  { induction rs as [|r rs IH]; intros Hsub; simpl; [eauto|].
    destruct (IH (fun r' Hr' => Hsub r' (or_intror Hr'))) as [l ->].
    destruct (proj1 (in_map_iff _ _ _) (Hsub r (or_introl eq_refl))) as (p & <- & Hp).
    destruct (Hserved p Hp) as (resp & -> & _). eauto. }
  destruct (Hall manifest_requests (fun r Hr => Hr)) as [l Hl].
  exists l. split; [exact Hl|].
  pose proof (fetch_all_values net _ l Hl) as Hvals.
  pose proof (fetch_all_requests net _ l Hl) as Hfst.
  split; [|split; assumption].
  apply forallb_forall. intros [r v] Hin.
  assert (Hr : In r manifest_requests) by (rewrite <- Hfst; exact (in_map fst _ _ Hin)).
  apply in_map_iff in Hr as (p & <- & Hp).
  destruct (Hserved p Hp) as (resp & Hresp & Hacc).
  rewrite (Hvals _ _ Hin) in Hresp. injection Hresp as ->. exact Hacc.
Qed.

(** What a successful bulk fill leaves in the generation it fills. *)
Lemma put_all_manifest net (l : list (Request * Response)) (before : Cache) :
  map fst l = manifest_requests ->
  (forall r v, In (r, v) l -> net r = Some v) ->
  (forall p, In p ASSETS ->
     put_all l before !! url (request_of origin p) = net (request_of origin p))
  /\ (forall u, ~ In u (asset_urls origin) -> put_all l before !! u = before !! u).
Proof.
  intros Hfst Hl. pose proof (manifest_keys l Hfst) as Hkeys. split.
  - intros p Hp.
    assert (Hin : In (request_of origin p) (map fst l)).
    { rewrite Hfst. apply in_map, Hp. }
    apply in_map_iff in Hin as ([r v] & Hr & Hin). simpl in Hr. subst r.
    rewrite (Hl _ _ Hin). apply put_all_member; [|exact Hin].
    rewrite Hkeys. apply asset_urls_distinct.
  - intros u Hu. apply put_all_other. rewrite Hkeys. exact Hu.
Qed.

Lemma manifest_size (m : Cache) :
  (forall u, is_Some (m !! u) <-> In u (asset_urls origin)) -> size m = 4.
Proof.
  intros H. rewrite <- size_dom.
  assert (E : dom m = list_to_set (asset_urls origin)).
  { apply set_eq. intros u.
    rewrite elem_of_dom, elem_of_list_to_set, list_elem_of_In. apply H. }
  rewrite E, size_list_to_set by apply asset_urls_distinct. reflexivity.
Qed.

Lemma generation_open_current s :
  generation CACHE_NAME (storage_open CACHE_NAME s)
  = Some (default ∅ (generation CACHE_NAME s)).
Proof.
  rewrite <- (generation_open_update (fun c => c)).
  f_equal. induction (storage_open CACHE_NAME s) as [|[n c] s' IH]; simpl; [reflexivity|].
  destruct (String.eqb n CACHE_NAME); [reflexivity | rewrite <- IH; reflexivity].
Qed.

(** The install, step by step: caches.open is called, then skipWaiting;
    later the generation is there and addAll is called. *)
Lemma install_equation net h :
  on_install net h
  = let opened := storage_open CACHE_NAME (caches h) in
    let called := calls h ++ [CallCachesOpen CACHE_NAME;
                              CallSkipWaiting;
                              CallCacheAddAll CACHE_NAME ASSETS] in
    match fetch_all net manifest_requests with
    | Some l =>
        if forallb addAll_accepts l
        then (Fulfilled tt,
              {| caches := storage_update CACHE_NAME (put_all l) opened;
                 calls := called; background := background h |})
        else (Rejected,
              {| caches := opened; calls := called; background := background h |})
    | None =>
        (Rejected,
         {| caches := opened; calls := called; background := background h |})
    end.
Proof.
  unfold install_handler, bind, caches_open, issue, waitUntil, skipWaiting, pure,
    and_then, opening, cache_addAll. cbn beta iota zeta.
  destruct (fetch_all net manifest_requests) as [l|];
    [destruct (forallb addAll_accepts l)|];
    simpl; unfold log, set_caches; simpl; rewrite <- ?app_assoc; reflexivity.
Qed.

Lemma install_succeeds net h :
  fst (on_install net h) = Fulfilled tt <-> manifest_served origin net.
Proof.
  rewrite install_equation. cbv zeta. split.
  - destruct (fetch_all net manifest_requests) as [l|] eqn:Hl; [|discriminate].
    destruct (forallb addAll_accepts l) eqn:Hacc; [|discriminate].
    intros _ p Hp.
    assert (Hin : In (request_of origin p) (map fst l)).
    { rewrite (fetch_all_requests net _ l Hl). apply in_map, Hp. }
    apply in_map_iff in Hin as ([r v] & Hr & Hin). simpl in Hr. subst r.
    exists v. split; [exact (fetch_all_values net _ l Hl _ _ Hin)|].
    exact (proj1 (forallb_forall _ _) Hacc _ Hin).
  - intros Hserved. destruct (manifest_fetched net Hserved) as (l & -> & -> & _).
    reflexivity.
Qed.

(** C6, as the script has it: when every fetch of the manifest resolves
    with a response that addAll accepts (an ok status other than 206, no
    Vary on everything), install succeeds and the current generation holds
    the four manifest entries, each with the response fetched for it, next
    to whatever the generation held before; these are exactly the four
    entries when the generation was absent or empty.  When one fetch of
    the manifest fails, or resolves with a response addAll does not
    accept, the promise given to waitUntil rejects: install is reported as
    failed, and nothing has been stored. *)
Theorem install_fills_current_generation (net : Network) (h : Host) :
  let before := default ∅ (generation CACHE_NAME (caches h)) in
  (manifest_served origin net ->
   fst (on_install net h) = Fulfilled tt
   /\ exists after,
        generation CACHE_NAME (caches (snd (on_install net h))) = Some after
        /\ (forall p, In p ASSETS ->
            after !! url (request_of origin p) = net (request_of origin p))
        /\ (forall u, ~ In u (asset_urls origin) -> after !! u = before !! u)
        /\ (forall u, is_Some (after !! u)
                      <-> is_Some (before !! u) \/ In u (asset_urls origin))
        /\ (before = ∅ ->
            (forall u, is_Some (after !! u) <-> In u (asset_urls origin))
            /\ size after = 4))
  /\ ((exists p, In p ASSETS /\ net (request_of origin p) = None) ->
      fst (on_install net h) = Rejected)
  /\ ((exists p resp, In p ASSETS
                      /\ net (request_of origin p) = Some resp
                      /\ addAll_accepts (request_of origin p, resp) = false) ->
      fst (on_install net h) = Rejected)
  /\ (fst (on_install net h) = Rejected ->
      generation CACHE_NAME (caches (snd (on_install net h))) = Some before).
Proof.
  intros before. repeat apply conj.
  - intros Hserved. rewrite install_equation. cbv zeta.
    destruct (manifest_fetched net Hserved) as (l & -> & -> & Hfst & Hl).
    split; [reflexivity|]. exists (put_all l before). cbn [snd caches].
    destruct (put_all_manifest net l before Hfst Hl) as [Hin Hout].
    assert (Hdom : forall u, is_Some (put_all l before !! u)
                             <-> is_Some (before !! u) \/ In u (asset_urls origin)).
    { intros u. destruct (in_dec string_dec u (asset_urls origin)) as [Hu | Hu].
      - split; [intros _; right; exact Hu | intros _].
        unfold asset_urls in Hu. apply in_map_iff in Hu as (p & <- & Hp).
        rewrite (Hin p Hp). destruct (Hserved p Hp) as (resp & -> & _). eauto.
      - rewrite (Hout u Hu). tauto. }
    split; [apply generation_open_update|].
    split; [exact Hin|]. split; [exact Hout|]. split; [exact Hdom|].
    intros Hempty.
    assert (Hexact : forall u, is_Some (put_all l before !! u)
                               <-> In u (asset_urls origin)).
    { intros u. rewrite Hdom, Hempty, lookup_empty. split; [|tauto].
      intros [[v Hv] | Hu]; [discriminate | exact Hu]. }
    split; [exact Hexact | apply manifest_size, Hexact].
  - intros (p & Hp & Hnone). rewrite install_equation. cbv zeta.
    rewrite (fetch_all_rejected net manifest_requests (request_of origin p));
      [reflexivity | apply in_map, Hp | exact Hnone].
  - intros (p & resp & Hp & Hresp & Hrefused).
    destruct (fst (on_install net h)) as [[]|] eqn:E; [|reflexivity].
    apply install_succeeds in E. destruct (E p Hp) as (resp' & Hresp' & Hacc).
    congruence.
  - rewrite install_equation. cbv zeta.
    destruct (fetch_all net manifest_requests) as [l|];
      [destruct (forallb addAll_accepts l)|]; cbn [fst snd caches];
      first [discriminate | intros _; apply generation_open_current].
Qed.

End Lifecycle.

(** ** The fetch listener *)

Section FetchListener.

Variable origin : string.
Variable pathname : string -> string.

Local Abbreviation on_fetch := (fetch_handler origin pathname).
Local Abbreviation fallback := (request_of origin "/static/index.html").

Local Ltac enter_handler :=
  unfold fetch_handler, respondWith, bind, fetch, caches_match, caches_open, issue,
    pure, catch, defined, and_then, resolve, detach, opening.

Lemma method_is_get (r : Request) :
  method r = "GET" -> negb (String.eqb (method r) "GET") = false.
Proof. intros ->. reflexivity. Qed.

Lemma method_not_get (r : Request) :
  method r <> "GET" -> negb (String.eqb (method r) "GET") = true.
Proof.
  intros Hm. destruct (String.eqb_spec (method r) "GET"); [contradiction | reflexivity].
Qed.

Lemma network_fetches_app (l1 l2 : list HostCall) :
  network_fetches (l1 ++ l2) = network_fetches l1 + network_fetches l2.
Proof.
  unfold network_fetches. induction l1 as [|c l1 IH]; simpl; [reflexivity|].
  destruct (is_fetch c); simpl; rewrite IH; reflexivity.
Qed.

(** The equations of the cache-first branch. *)
Lemma on_fetch_hit (net : Network) (request : Request) (h : Host)
    (cached : Response) :
  method request = "GET" ->
  String.prefix "/api/" (pathname (url request)) = false ->
  storage_match (caches h) request = Some cached ->
  on_fetch net request h
    = (RespondWith (Fulfilled (Some cached)), log (CallCachesMatch request) h).
Proof.
  intros Hm Hp Hc. enter_handler. rewrite (method_is_get _ Hm), Hp. simpl.
  rewrite Hc. reflexivity.
Qed.


Lemma log_keeps_fetches (c : HostCall) (h : Host) :
  is_fetch c = false ->
  network_fetches (calls (log c h)) = network_fetches (calls h).
Proof.
  intros Hc. simpl. rewrite network_fetches_app. unfold network_fetches at 2.
  simpl. rewrite Hc. simpl. lia.
Qed.

(** C8: a request whose method is not GET leaves the listener without a
    call to respondWith, and the host exactly as it was: no call was
    logged, the storage is the same, nothing was started in the
    background. *)
Theorem non_get_passes_through (net : Network) (request : Request) (h : Host) :
  method request <> "GET" ->
  on_fetch net request h = (PassThrough, h).
Proof.
  intros Hm. unfold fetch_handler. rewrite (method_not_get _ Hm). reflexivity.
Qed.

(** C1: a GET outside /api/ that the cache matches is answered with the
    matched entry; the one host call made is that caches.match, so the
    count of network fetches is unchanged and the storage untouched. *)
Theorem cache_first_hit (net : Network) (request : Request) (h : Host)
    (cached : Response) :
  method request = "GET" ->
  String.prefix "/api/" (pathname (url request)) = false ->
  storage_match (caches h) request = Some cached ->
  on_fetch net request h
    = (RespondWith (Fulfilled (Some cached)), log (CallCachesMatch request) h)
  /\ network_fetches (calls (snd (on_fetch net request h)))
     = network_fetches (calls h).
Proof.
  intros Hm Hp Hc.
  rewrite (on_fetch_hit net request h cached) by assumption.
  split; [reflexivity|]. apply log_keeps_fetches. reflexivity.
Qed.

(** C2: a GET under /api/ whose fetch resolves, with whatever status, is
    answered with that very response; the only host call is the fetch,
    the storage is unchanged and no background write is started. *)
Theorem api_network_success (net : Network) (request : Request) (h : Host)
    (resp : Response) :
  method request = "GET" ->
  String.prefix "/api/" (pathname (url request)) = true ->
  net request = Some resp ->
  on_fetch net request h
    = (RespondWith (Fulfilled (Some resp)), log (CallFetch request) h)
  /\ caches (snd (on_fetch net request h)) = caches h
  /\ background (snd (on_fetch net request h)) = background h.
Proof.
  intros Hm Hp Hn.
  assert (E : on_fetch net request h
              = (RespondWith (Fulfilled (Some resp)), log (CallFetch request) h)).
  { enter_handler. rewrite (method_is_get _ Hm), Hp. simpl. rewrite Hn. reflexivity. }
  rewrite E. auto.
Qed.

(** C3: a GET under /api/ whose fetch rejects is answered with what
    caches.match finds for that request: the stored response, or
    undefined ([None]) when there is none; the promise is fulfilled either
    way, never turned into an error response. *)
Theorem api_network_failure (net : Network) (request : Request) (h : Host) :
  method request = "GET" ->
  String.prefix "/api/" (pathname (url request)) = true ->
  net request = None ->
  on_fetch net request h
    = (RespondWith (Fulfilled (storage_match (caches h) request)),
       log (CallCachesMatch request) (log (CallFetch request) h)).
Proof.
  intros Hm Hp Hn. enter_handler.
  rewrite (method_is_get _ Hm), Hp. simpl. rewrite Hn. reflexivity.
Qed.

(** C5: a GET outside /api/ that the cache does not match and whose fetch
    rejects.  In mode "navigate" the answer is what caches.match finds for
    /static/index.html, so the stored fallback document when there is
    one.  In any other mode the promise fulfils with undefined: no
    fallback is looked up and nothing is stored. *)
Theorem cache_first_offline (net : Network) (request : Request) (h : Host) :
  method request = "GET" ->
  String.prefix "/api/" (pathname (url request)) = false ->
  storage_match (caches h) request = None ->
  net request = None ->
  (mode request = "navigate" ->
     on_fetch net request h
       = (RespondWith (Fulfilled (storage_match (caches h) fallback)),
          log (CallCachesMatch fallback)
            (log (CallFetch request) (log (CallCachesMatch request) h)))
     /\ forall doc, storage_match (caches h) fallback = Some doc ->
         fst (on_fetch net request h) = RespondWith (Fulfilled (Some doc)))
  /\ (mode request <> "navigate" ->
     on_fetch net request h
       = (RespondWith (Fulfilled None),
          log (CallFetch request) (log (CallCachesMatch request) h))).
Proof.
  intros Hm Hp Hc Hn. split.
  - intros Hnav.
    assert (E : on_fetch net request h
       = (RespondWith (Fulfilled (storage_match (caches h) fallback)),
          log (CallCachesMatch fallback)
            (log (CallFetch request) (log (CallCachesMatch request) h)))).
    { enter_handler. rewrite (method_is_get _ Hm), Hp. simpl. rewrite Hc. simpl.
      rewrite Hn, Hnav. reflexivity. }
    split; [exact E|]. intros doc Hdoc. rewrite E, Hdoc. reflexivity.
  - intros Hnav. enter_handler. rewrite (method_is_get _ Hm), Hp. simpl.
    rewrite Hc. simpl. rewrite Hn.
    destruct (String.eqb_spec (mode request) "navigate"); [contradiction|].
    reflexivity.
Qed.

(** What one fetch event can do to the host. *)
Lemma fetch_handler_effect (net : Network) (r : Request) (h : Host) :
  caches (snd (on_fetch net r h)) = caches h
  /\ (background (snd (on_fetch net r h)) = background h
      \/ (method r = "GET"
          /\ String.prefix "/api/" (pathname (url r)) = false
          /\ storage_match (caches h) r = None
          /\ exists resp,
               net r = Some resp
               /\ background (snd (on_fetch net r h))
                  = background h ++ [Refill r (clone resp)]))
  /\ exists new, calls (snd (on_fetch net r h)) = calls h ++ new
                 /\ forallb refill_or_read new = true.
Proof.
  enter_handler.
  destruct (String.eqb_spec (method r) "GET") as [Hm|Hm]; simpl.
  2:{ repeat split; [left; reflexivity|]. exists []. by rewrite app_nil_r. }
  destruct (String.prefix "/api/" (pathname (url r))) eqn:Hp; simpl.
  - destruct (net r); simpl.
    + repeat split; [left; reflexivity|]. by exists [CallFetch r].
    + repeat split; [left; reflexivity|].
      exists [CallFetch r; CallCachesMatch r]. by rewrite <- app_assoc.
  - destruct (storage_match (caches h) r) eqn:Hc; simpl.
    + repeat split; [left; reflexivity|]. by exists [CallCachesMatch r].
    + destruct (net r) as [resp|] eqn:Hn; simpl.
      * repeat split.
        -- right. repeat split; [exact Hm|]. exists resp. split; reflexivity.
        -- exists [CallCachesMatch r; CallFetch r; CallCachesOpen CACHE_NAME].
           by rewrite <- !app_assoc.
      * destruct (String.eqb (mode r) "navigate"); simpl.
        -- repeat split; [left; reflexivity|].
           exists [CallCachesMatch r; CallFetch r; CallCachesMatch fallback].
           by rewrite <- !app_assoc.
        -- repeat split; [left; reflexivity|].
           exists [CallCachesMatch r; CallFetch r]. by rewrite <- app_assoc.
Qed.

Lemma fetch_handler_caches (net : Network) (r : Request) (h : Host) :
  caches (snd (on_fetch net r h)) = caches h.
Proof. exact (proj1 (fetch_handler_effect net r h)). Qed.


(** With the network down, a GET is answered from caches.match on either
    branch. *)
Lemma on_fetch_offline_hit (request : Request) (h : Host) (hit : Response) :
  method request = "GET" ->
  storage_match (caches h) request = Some hit ->
  fst (on_fetch (fun _ => None) request h) = RespondWith (Fulfilled (Some hit)).
Proof.
  intros Hm Hc. enter_handler. rewrite (method_is_get _ Hm).
  destruct (String.prefix "/api/" (pathname (url request))); simpl; rewrite Hc; reflexivity.
Qed.

(** C10: the three reads of the fetch listener (the fallback of the
    network-first branch, the first lookup of the cache-first branch, the
    navigation fallback) return what caches.match finds, and caches.match
    takes the entry of the first generation that has one, whatever its
    name.  The listener and its refill never read a single generation; the
    only generation opened or written is the current one, and every other
    generation is left as it was, in whatever order pending refills run.
    A lookup confined to the current generation can give a different
    answer: a stale generation created earlier shadows the current
    entry. *)
Theorem reads_search_all_generations (net : Network) (request : Request) (h : Host) :
  method request = "GET" ->
  (String.prefix "/api/" (pathname (url request)) = true ->
   net request = None ->
   fst (on_fetch net request h)
   = RespondWith (Fulfilled (storage_match (caches h) request)))
  /\ (String.prefix "/api/" (pathname (url request)) = false ->
      forall hit, storage_match (caches h) request = Some hit ->
      fst (on_fetch net request h) = RespondWith (Fulfilled (Some hit)))
  /\ (String.prefix "/api/" (pathname (url request)) = false ->
      storage_match (caches h) request = None ->
      net request = None ->
      mode request = "navigate" ->
      fst (on_fetch net request h)
      = RespondWith (Fulfilled (storage_match (caches h) fallback)))
  /\ (forall older name c newer q v,
      caches h = older ++ (name, c) :: newer ->
      Forall (fun g => cache_lookup (snd g) q = None) older ->
      cache_lookup c q = Some v ->
      storage_match (caches h) q = Some v)
  /\ (forall order, exists new,
      calls (drain order (snd (on_fetch net request h))) = calls h ++ new
      /\ forallb refill_or_read new = true)
  /\ (forall order name, name <> CACHE_NAME ->
      generation name (caches (drain order (snd (on_fetch net request h))))
      = generation name (caches h))
  /\ (exists s q stale current,
      fst (on_fetch (fun _ => None) q {| caches := s; calls := []; background := [] |})
      = RespondWith (Fulfilled (Some stale))
      /\ current_generation_match s q = Some current
      /\ stale <> current).
Proof.
  intros Hm. repeat apply conj.
  - intros Hp Hn. enter_handler. rewrite (method_is_get _ Hm), Hp. simpl.
    rewrite Hn. reflexivity.
  - intros Hp hit Hc. rewrite (on_fetch_hit net request h hit) by assumption. reflexivity.
  - intros Hp Hc Hn Hnav. enter_handler.
    rewrite (method_is_get _ Hm), Hp. simpl. rewrite Hc. simpl.
    rewrite Hn, Hnav. reflexivity.
  - intros older name c newer q v -> Hold Hv. apply storage_match_first; assumption.
  - intros order.
    destruct (fetch_handler_effect net request h) as (_ & _ & new1 & Hc1 & Hok1).
    destruct (drain_calls order (snd (on_fetch net request h))) as (new2 & Hc2 & Hok2 & _).
    exists (new1 ++ new2). split.
    + rewrite Hc2, Hc1, <- app_assoc. reflexivity.
    + rewrite forallb_app, Hok1, Hok2. reflexivity.
  - intros order name Hne.
    rewrite drain_generation_other by exact Hne.
    rewrite fetch_handler_caches. reflexivity.
  - exists Sample.stale_first, (Sample.get "/app.js" "no-cors"),
      Sample.old_script, Sample.script.
    split; [|split].
    + apply on_fetch_offline_hit; reflexivity.
    + reflexivity.
    + discriminate.
Qed.

End FetchListener.

(** ** Further properties of the fetch listener *)

Section FetchListenerFurther.

Variable origin : string.
Variable pathname : string -> string.

Local Abbreviation on_fetch := (fetch_handler origin pathname).
Local Abbreviation fallback := (request_of origin "/static/index.html").

Local Ltac enter_handler :=
  unfold fetch_handler, respondWith, bind, fetch, caches_match, caches_open, issue,
    pure, catch, defined, and_then, resolve, detach, opening.

Local Ltac pick_case :=
  solve [repeat first [reflexivity | left; reflexivity | right]].

(** The calls one fetch event adds to the log, branch by branch. *)
Lemma fetch_handler_calls (net : Network) (r : Request) (h : Host) :
  exists new,
    calls (snd (on_fetch net r h)) = calls h ++ new
    /\ (new = [] \/ new = [CallFetch r] \/ new = [CallFetch r; CallCachesMatch r]
        \/ new = [CallCachesMatch r]
        \/ new = [CallCachesMatch r; CallFetch r; CallCachesOpen CACHE_NAME]
        \/ new = [CallCachesMatch r; CallFetch r]
        \/ new = [CallCachesMatch r; CallFetch r; CallCachesMatch fallback]).
Proof.
  enter_handler.
  destruct (negb (String.eqb (method r) "GET")); simpl.
  { exists []. rewrite app_nil_r. split; [reflexivity | pick_case]. }
  destruct (String.prefix "/api/" (pathname (url r))); simpl.
  - destruct (net r); simpl.
    + exists [CallFetch r]. split; [reflexivity | pick_case].
    + exists [CallFetch r; CallCachesMatch r]. rewrite <- app_assoc.
      split; [reflexivity | pick_case].
  - destruct (storage_match (caches h) r); simpl.
    + exists [CallCachesMatch r]. split; [reflexivity | pick_case].
    + destruct (net r); simpl.
      * exists [CallCachesMatch r; CallFetch r; CallCachesOpen CACHE_NAME].
        rewrite <- !app_assoc. split; [reflexivity | pick_case].
      * destruct (String.eqb (mode r) "navigate"); simpl.
        -- exists [CallCachesMatch r; CallFetch r; CallCachesMatch fallback].
           rewrite <- !app_assoc. split; [reflexivity | pick_case].
        -- exists [CallCachesMatch r; CallFetch r]. rewrite <- app_assoc.
           split; [reflexivity | pick_case].
Qed.

(** X1: no retries.  One fetch event asks the network at most once, and
    only for the request of the event; the refill it may leave behind asks
    the network nothing, whenever and in whatever order pending refills
    run. *)
Theorem fetch_event_asks_network_at_most_once (net : Network) (r : Request) (h : Host) :
  (exists new,
     calls (snd (on_fetch net r h)) = calls h ++ new
     /\ network_fetches new <= 1
     /\ forall c, In c new -> is_fetch c = true -> c = CallFetch r)
  /\ forall order,
       network_fetches (calls (drain order (snd (on_fetch net r h))))
       = network_fetches (calls (snd (on_fetch net r h))).
Proof.
  split.
  - destruct (fetch_handler_calls net r h) as (new & Hc & Hnew).
    exists new. split; [exact Hc|].
    destruct Hnew as [-> | [-> | [-> | [-> | [-> | [-> | ->]]]]]];
      (split; [vm_compute; lia|]); intros c Hin Hf; simpl in Hin;
      repeat (destruct Hin as [<- | Hin]; [first [reflexivity | discriminate]|]);
      destruct Hin.
  - intros order.
    destruct (drain_calls order (snd (on_fetch net r h))) as (new & -> & _ & Hnone).
    rewrite network_fetches_app, Hnone. lia.
Qed.

(** X2: the promise given to respondWith never rejects.  A GET is always
    answered with a fulfilled promise, and its value is undefined exactly
    when the fetch failed, nothing matches the request and, for a
    navigation outside /api/, nothing matches /static/index.html either. *)
Theorem get_is_never_rejected (net : Network) (r : Request) (h : Host) :
  method r = "GET" ->
  exists answer,
    fst (on_fetch net r h) = RespondWith (Fulfilled answer)
    /\ (answer = None
        <-> net r = None
            /\ storage_match (caches h) r = None
            /\ (String.prefix "/api/" (pathname (url r)) = false ->
                mode r = "navigate" ->
                storage_match (caches h) fallback = None)).
Proof.
  intros Hm. enter_handler. rewrite (method_is_get _ Hm).
  destruct (String.prefix "/api/" (pathname (url r))) eqn:Hp; simpl.
  - destruct (net r) as [resp|]; simpl.
    + exists (Some resp). split; [reflexivity|].
      split; [discriminate | intros [H _]; discriminate].
    + exists (storage_match (caches h) r). split; [reflexivity|].
      split; [intros ->; repeat split; discriminate | tauto].
  - destruct (storage_match (caches h) r) as [hit|] eqn:Hc; simpl.
    + exists (Some hit). split; [reflexivity|].
      split; [discriminate | intros (_ & H & _); discriminate].
    + destruct (net r) as [resp|]; simpl.
      * exists (Some resp). split; [reflexivity|].
        split; [discriminate | intros [H _]; discriminate].
      * destruct (String.eqb_spec (mode r) "navigate") as [Hnav | Hnav]; simpl.
        -- exists (storage_match (caches h) fallback). split; [reflexivity|].
           split; [intros ->; auto | intros (_ & _ & H); auto].
        -- exists None. split; [reflexivity|].
           split; [intros _; repeat split; intros; contradiction | reflexivity].
Qed.

(** What one fetch event can leave pending: at most the refill of its own
    request, and only on the cache-first branch after a miss. *)
Lemma fetch_handler_jobs (net : Network) (r : Request) (h : Host) :
  background (snd (on_fetch net r h)) = background h
  \/ (method r = "GET"
      /\ String.prefix "/api/" (pathname (url r)) = false
      /\ storage_match (caches h) r = None
      /\ exists resp,
           net r = Some resp
           /\ background (snd (on_fetch net r h))
              = background h ++ [Refill r (clone resp)]).
Proof. exact (proj1 (proj2 (fetch_handler_effect origin pathname net r h))). Qed.

Lemma missing_in_generation (s : CacheStorage) (r : Request) (name : string)
    (c : Cache) :
  method r = "GET" ->
  storage_match s r = None ->
  generation name s = Some c ->
  c !! url r = None.
Proof.
  intros Hm. induction s as [|[n c'] s IH]; simpl; [discriminate|].
  unfold cache_lookup at 1. rewrite Hm. simpl.
  destruct (c' !! url r) eqn:E; [discriminate|]. intros Hs.
  destruct (String.eqb n name); [intros [= <-]; exact E | exact (IH Hs)].
Qed.

Lemma drain_idle (order : list nat) (h : Host) :
  background h = [] -> drain order h = h.
Proof.
  intros Hb. induction order as [|i order IH]; [reflexivity|].
  rewrite drain_cons, run_pending_none; [exact IH|]. rewrite Hb. reflexivity.
Qed.

(** With one job pending, a schedule runs it or leaves it. *)
Lemma drain_single (order : list nat) (h : Host) (j : Job) :
  background h = [j] ->
  drain order h = h \/ drain order h = snd (run_job j (set_background [] h)).
Proof.
  intros Hb. induction order as [|i order IH]; [left; reflexivity|].
  rewrite drain_cons. destruct i as [|i].
  - right. rewrite (run_pending_some 0 h j) by (rewrite Hb; reflexivity).
    rewrite Hb. simpl. apply drain_idle. apply run_job_background.
  - rewrite run_pending_none by (rewrite Hb; reflexivity). exact IH.
Qed.

(** X3: with no other work pending, a fetch event and its refill remove
    and replace nothing, whether the refill has run yet or not: every
    generation is still there, with every entry it had and the same
    response for it.  A generation is either exactly as it was or it is
    the current generation with one entry more, the fetched response
    under the URL of the event's request, which had no entry and which
    the cache accepts. *)
Theorem fetch_event_keeps_every_entry (net : Network) (r : Request) (h : Host)
    (name : string) (c : Cache) (order : list nat) :
  background h = [] ->
  generation name (caches h) = Some c ->
  exists c',
    generation name (caches (drain order (snd (on_fetch net r h)))) = Some c'
    /\ c ⊆ c'
    /\ (c' = c
        \/ (name = CACHE_NAME
            /\ c !! url r = None
            /\ exists resp, net r = Some resp
                            /\ put_accepts r resp = true
                            /\ c' = <[url r := resp]> c)).
Proof.
  intros Hquiet Hgen.
  assert (Hsame : exists c', generation name (caches h) = Some c' /\ c ⊆ c'
                             /\ (c' = c \/ (name = CACHE_NAME /\ c !! url r = None
                                 /\ exists resp, net r = Some resp
                                      /\ put_accepts r resp = true
                                      /\ c' = <[url r := resp]> c)))
    by (exists c; auto).
  destruct (fetch_handler_jobs net r h) as [Hb | (Hm & _ & Hmiss & resp & Hn & Hb)];
    rewrite Hquiet in Hb.
  - rewrite drain_idle by exact Hb. rewrite (fetch_handler_caches origin pathname).
    exact Hsame.
  - simpl in Hb. destruct (drain_single order _ _ Hb) as [-> | ->].
    { rewrite (fetch_handler_caches origin pathname). exact Hsame. }
    rewrite run_job_caches. cbn [caches set_background].
    rewrite (fetch_handler_caches origin pathname), clone_same.
    destruct (String.eqb_spec name CACHE_NAME) as [-> | Hne].
    + destruct (put_accepts r resp) eqn:Hacc.
      * rewrite generation_open_update, Hgen. simpl.
        pose proof (missing_in_generation _ r _ c Hm Hmiss Hgen) as Hfree.
        eexists. split; [reflexivity|]. split; [apply insert_subseteq, Hfree|].
        right. repeat split; [exact Hfree|]. exists resp. auto.
      * rewrite generation_open_current, Hgen. simpl. exists c. auto.
    + destruct (put_accepts r resp);
        rewrite ?generation_update_other, generation_open_other by exact Hne;
        exists c; auto.
Qed.

End FetchListenerFurther.

(** ** Storage and jobs, further *)

Section StorageFurther.

Local Abbreviation current := (fun g : string * Cache => String.eqb (fst g) CACHE_NAME).

Implicit Types (s : CacheStorage) (h : Host) (net : Network) (q r : Request).

Lemma storage_match_filter_None (f : string * Cache -> bool) s q :
  storage_match s q = None -> storage_match (List.filter f s) q = None.
Proof.
  induction s as [|[n c] s IH]; simpl; [reflexivity|].
  destruct (cache_lookup c q) eqn:E; [discriminate|]. intros Hs.
  destruct (f (n, c)); simpl; [rewrite E|]; exact (IH Hs).
Qed.

Lemma storage_match_update_same name (f : Cache -> Cache) s q :
  (forall c, cache_lookup (f c) q = cache_lookup c q) ->
  storage_match (storage_update name f s) q = storage_match s q.
Proof.
  intros Hf. induction s as [|[n c] s IH]; simpl; [reflexivity|].
  destruct (String.eqb n name); simpl; [rewrite Hf | rewrite IH]; reflexivity.
Qed.


Lemma storage_open_present name s :
  has_generation name s = true -> storage_open name s = s.
Proof. intros H. unfold storage_open. rewrite H. reflexivity. Qed.

Lemma storage_update_twice name (f g : Cache -> Cache) s :
  storage_update name f (storage_update name g s)
  = storage_update name (fun c => f (g c)) s.
Proof.
  induction s as [|[n c] s IH]; simpl; [reflexivity|].
  destruct (String.eqb n name) eqn:E; simpl; rewrite E; [reflexivity|].
  rewrite IH. reflexivity.
Qed.

Lemma storage_update_ext name (f g : Cache -> Cache) s :
  (forall c, f c = g c) -> storage_update name f s = storage_update name g s.
Proof.
  intros Hfg. induction s as [|[n c] s IH]; simpl; [reflexivity|].
  destruct (String.eqb n name); [rewrite Hfg | rewrite IH]; reflexivity.
Qed.

Lemma put_all_twice (l : list (Request * Response)) (m : Cache) :
  NoDup (map (fun e => url (fst e)) l) ->
  put_all l (put_all l m) = put_all l m.
Proof.
  intros Hnd. apply map_eq. intros u.
  destruct (in_dec string_dec u (map (fun e => url (fst e)) l)) as [Hu | Hu].
  - apply in_map_iff in Hu as ([r v] & <- & Hin). simpl.
    rewrite !(put_all_member l _ r v Hnd Hin). reflexivity.
  - rewrite !put_all_other by exact Hu. reflexivity.
Qed.

Lemma put_all_keeps (l : list (Request * Response)) (m : Cache) (u : string) :
  is_Some (m !! u) -> is_Some (put_all l m !! u).
Proof.
  revert m. induction l as [|[r v] l IH]; intros m Hm; [exact Hm|].
  unfold put_all in *. simpl. apply IH. apply lookup_insert_is_Some'. right. exact Hm.
Qed.

Lemma generation_present name s (c : Cache) :
  generation name s = Some c -> has_generation name s = true.
Proof.
  induction s as [|[n c'] s IH]; simpl; [discriminate|].
  destruct (String.eqb n name); simpl; [reflexivity | exact IH].
Qed.

Lemma storage_keys_update name (f : Cache -> Cache) s :
  storage_keys (storage_update name f s) = storage_keys s.
Proof.
  unfold storage_keys. induction s as [|[n c] s IH]; simpl; [reflexivity|].
  destruct (String.eqb n name); simpl; [|rewrite IH]; reflexivity.
Qed.

Lemma absent_generation name s :
  has_generation name s = false -> ~ In name (storage_keys s).
Proof.
  unfold has_generation, storage_keys. intros Hnone Hin.
  apply in_map_iff in Hin as (g & <- & Hg).
  assert (Hsome : existsb (fun g' => String.eqb (fst g') (fst g)) s = true).
  { apply existsb_exists. exists g. split; [exact Hg | apply String.eqb_refl]. }
  congruence.
Qed.

Lemma storage_keys_open_unique name s :
  List.NoDup (storage_keys s) -> List.NoDup (storage_keys (storage_open name s)).
Proof.
  intros Hnd. unfold storage_open. destruct (has_generation name s) eqn:Hhas; [exact Hnd|].
  unfold storage_keys. rewrite map_app. simpl.
  apply NoDup_ListNoDup, NoDup_app. repeat split.
  - apply NoDup_ListNoDup, Hnd.
  - intros k Hk Hk'. apply list_elem_of_In in Hk. apply list_elem_of_singleton in Hk'.
    subst k. exact (absent_generation name s Hhas Hk).
  - apply NoDup_singleton.
Qed.

Lemma storage_keys_filter_unique (f : string * Cache -> bool) s :
  List.NoDup (storage_keys s) -> List.NoDup (storage_keys (List.filter f s)).
Proof.
  unfold storage_keys. induction s as [|g s IH]; simpl; intros Hnd; [constructor|].
  apply List.NoDup_cons_iff in Hnd as [Hfresh Hnd].
  destruct (f g); simpl; [|exact (IH Hnd)].
  apply List.NoDup_cons_iff. split; [|exact (IH Hnd)].
  intros Hin. apply Hfresh. apply in_map_iff in Hin as (g' & E & Hg').
  apply filter_In in Hg' as [Hg' _]. apply in_map_iff. exists g'. auto.
Qed.

Lemma filter_current_absent s :
  ~ In CACHE_NAME (storage_keys s) -> List.filter current s = [].
Proof.
  unfold storage_keys. induction s as [|[n c] s IH]; simpl; intros Hnot; [reflexivity|].
  destruct (String.eqb_spec n CACHE_NAME) as [-> | Hne]; [tauto|]. apply IH. tauto.
Qed.

(** With unique names, what survives an activation is the current
    generation alone, if there is one. *)
Lemma filter_current_unique s :
  List.NoDup (storage_keys s) ->
  List.filter current s
  = match generation CACHE_NAME s with
    | Some c => [(CACHE_NAME, c)]
    | None => []
    end.
Proof.
  unfold storage_keys. induction s as [|[n c] s IH]; simpl; intros Hnd; [reflexivity|].
  apply List.NoDup_cons_iff in Hnd as [Hfresh Hnd]. simpl in Hfresh.
  destruct (String.eqb_spec n CACHE_NAME) as [-> | Hne].
  - rewrite (filter_current_absent s Hfresh). reflexivity.
  - exact (IH Hnd).
Qed.

(** X9: activation brings caches.match in line with the current
    generation.  With unique generation names, what caches.match finds
    after an activation is what the current generation held before it: no
    stale generation can shadow or stand in for a current entry any
    more. *)
Theorem activation_aligns_reads_with_current (h : Host) (r : Request) :
  List.NoDup (storage_keys (caches h)) ->
  storage_match (caches (snd (activate_handler h))) r
  = current_generation_match (caches h) r.
Proof.
  intros Hnd. destruct (activate_equation h) as [results ->]. cbn [snd caches].
  rewrite filter_current_unique by exact Hnd. unfold current_generation_match.
  destruct (generation CACHE_NAME (caches h)) as [c|]; simpl; [|reflexivity].
  destruct (cache_lookup c r); reflexivity.
Qed.

Lemma run_pending_keys_unique i h :
  List.NoDup (storage_keys (caches h)) ->
  List.NoDup (storage_keys (caches (run_pending i h))).
Proof.
  intros Hnd.
  apply (run_pending_keeps (fun s => List.NoDup (storage_keys s)) (fun _ => True));
    [|apply Forall_true; auto|exact Hnd].
  intros s r copy _ Hs. rewrite storage_keys_update.
  split; apply storage_keys_open_unique, Hs.
Qed.

Lemma run_pending_current_grows i h (c : Cache) :
  generation CACHE_NAME (caches h) = Some c ->
  exists c', generation CACHE_NAME (caches (run_pending i h)) = Some c'
             /\ forall u, is_Some (c !! u) -> is_Some (c' !! u).
Proof.
  intros Hc.
  apply (run_pending_keeps
           (fun s => exists c', generation CACHE_NAME s = Some c'
                                /\ forall u, is_Some (c !! u) -> is_Some (c' !! u))
           (fun _ => True)); [|apply Forall_true; auto|exists c; auto].
  intros s r copy _ (c' & Hc' & Hgrow). split.
  - exists c'. rewrite generation_open_current, Hc'. auto.
  - rewrite generation_open_update, Hc'. simpl. eexists. split; [reflexivity|].
    intros u Hu. apply lookup_insert_is_Some'. right. apply Hgrow, Hu.
Qed.

End StorageFurther.

(** ** The worker over its life *)

Section WorkerLife.

Variable origin : string.
Variable pathname : string -> string.

Local Abbreviation on_fetch := (fetch_handler origin pathname).
Local Abbreviation on_install := (install_handler origin).
Local Abbreviation fallback := (request_of origin "/static/index.html").
Local Abbreviation manifest_requests := (map (request_of origin) ASSETS).

Implicit Types (s : CacheStorage) (h : Host) (net : Network) (q r : Request).

(** *** What an install leaves alone *)

(** The responses a bulk fill stores are those of the manifest's URLs. *)
Lemma fetch_all_manifest_keys net (l : list (Request * Response)) :
  fetch_all net manifest_requests = Some l ->
  map (fun e => url (fst e)) l = asset_urls origin.
Proof. intros H. apply manifest_keys, (fetch_all_requests net _ l H). Qed.

(** The storage after an install: the generation opened, and the
    manifest written into it or not. *)
Lemma install_caches net h :
  caches (snd (on_install net h)) = storage_open CACHE_NAME (caches h)
  \/ exists l, fetch_all net manifest_requests = Some l
               /\ caches (snd (on_install net h))
                  = storage_update CACHE_NAME (put_all l)
                      (storage_open CACHE_NAME (caches h)).
Proof.
  rewrite install_equation. cbv zeta.
  destruct (fetch_all net manifest_requests) as [l|];
    [destruct (forallb addAll_accepts l)|]; cbn [snd caches]; eauto.
Qed.

Lemma install_background net h :
  background (snd (on_install net h)) = background h.
Proof.
  rewrite install_equation. cbv zeta.
  destruct (fetch_all net manifest_requests) as [l|];
    [destruct (forallb addAll_accepts l)|]; reflexivity.
Qed.

(** An install leaves the match of every request outside the manifest as
    it was. *)
Lemma install_match_other net h q :
  ~ In (url q) (asset_urls origin) ->
  storage_match (caches (snd (on_install net h))) q = storage_match (caches h) q.
Proof.
  intros Hq. destruct (install_caches net h) as [-> | (l & Hl & ->)].
  - apply storage_match_open.
  - rewrite storage_match_update_same; [apply storage_match_open|].
    intros c. unfold cache_lookup. destruct (String.eqb (method q) "GET"); [|reflexivity].
    apply put_all_other. rewrite (fetch_all_manifest_keys net l Hl). exact Hq.
Qed.


(** *** An entry that stays *)






(** *** What is never stored *)

Lemma occur_keeps_unanswered q h (ev : Event) :
  String.prefix "/api/" (pathname (url q)) = true ->
  ~ In (url q) (asset_urls origin) ->
  unanswered q h ->
  unanswered q (occur origin pathname h ev).
Proof.
  intros Hapi Hq [Hnone Hjobs]. unfold unanswered.
  destruct ev as [net | [net r | | i]]; simpl.
  - rewrite install_match_other by exact Hq. rewrite install_background. auto.
  - rewrite (fetch_handler_caches origin pathname). split; [exact Hnone|].
    destruct (fetch_handler_jobs origin pathname net r h)
      as [-> | (_ & Hstatic & _ & resp & _ & ->)]; [exact Hjobs|].
    apply Forall_app. split; [exact Hjobs|]. constructor; [|constructor].
    simpl. intros Hu. rewrite Hu, Hapi in Hstatic. discriminate.
  - destruct (activate_equation h) as [results ->]. simpl.
    split; [apply storage_match_filter_None, Hnone | exact Hjobs].
  - destruct (run_pending_match_other q i h Hjobs) as [-> Hjobs']. auto.
Qed.

(** X4: nothing the worker does ever stores the response of an /api/
    request.  If such a request (not one of the manifest's) is unmatched,
    it stays unmatched through any installs, activations, fetch events and
    settling of pending work; so when the network is down the worker
    answers it with undefined, however often it succeeded before. *)
Theorem api_response_is_never_cached (q : Request) (h : Host) (evs : list Event) :
  String.prefix "/api/" (pathname (url q)) = true ->
  ~ In (url q) (asset_urls origin) ->
  unanswered q h ->
  storage_match (caches (life origin pathname evs h)) q = None
  /\ (method q = "GET" ->
      fst (on_fetch (fun _ => None) q (life origin pathname evs h))
      = RespondWith (Fulfilled None)).
Proof.
  intros Hapi Hq Hun.
  assert (Hlater : unanswered q (life origin pathname evs h)).
  { revert h Hun. induction evs as [|ev evs IH]; intros h Hun; [exact Hun|].
    apply IH, occur_keeps_unanswered; assumption. }
  destruct Hlater as [Hnone _]. split; [exact Hnone|]. intros Hm.
  unfold fetch_handler, respondWith, bind, fetch, caches_match, issue, pure, catch,
    defined.
  rewrite (method_is_get _ Hm), Hapi. simpl. rewrite Hnone. reflexivity.
Qed.

(** *** The shell, offline *)



(** *** Install, again *)

(** X6: installing twice is installing once.  A second install against
    the same network, successful or not, leaves the storage exactly as the
    first one left it. *)
Theorem install_twice_is_install_once (net : Network) (h : Host) :
  caches (snd (on_install net (snd (on_install net h))))
  = caches (snd (on_install net h)).
Proof.
  rewrite (install_equation origin net (snd (on_install net h))).
  rewrite (install_equation origin net h). cbv zeta.
  destruct (fetch_all net manifest_requests) as [l|] eqn:Hl;
    [destruct (forallb addAll_accepts l)|]; cbn [snd caches].
  - rewrite storage_open_present
      by (rewrite has_generation_update; apply has_generation_open).
    rewrite storage_update_twice. apply storage_update_ext. intros c.
    apply put_all_twice. rewrite (fetch_all_manifest_keys net l Hl).
    apply asset_urls_distinct.
  - apply storage_open_present, has_generation_open.
  - apply storage_open_present, has_generation_open.
Qed.

(** X7: an install touches the current generation only, and only by
    adding or replacing.  Whether it succeeds or fails, the generation
    "didit-cache-v1" exists afterwards, every other generation is as it
    was, no entry the current generation had is gone, no work is left
    pending, and the calls made are caches.open, skipWaiting and
    cache.addAll, in that order: skipWaiting is requested before addAll
    is even called, so whatever becomes of the install. *)
Theorem install_only_adds_to_current (net : Network) (h : Host) :
  has_generation CACHE_NAME (caches (snd (on_install net h))) = true
  /\ (forall name, name <> CACHE_NAME ->
      generation name (caches (snd (on_install net h))) = generation name (caches h))
  /\ (forall c, generation CACHE_NAME (caches h) = Some c ->
      exists c', generation CACHE_NAME (caches (snd (on_install net h))) = Some c'
                 /\ forall u, is_Some (c !! u) -> is_Some (c' !! u))
  /\ background (snd (on_install net h)) = background h
  /\ calls (snd (on_install net h))
     = calls h ++ [CallCachesOpen CACHE_NAME;
                   CallSkipWaiting;
                   CallCacheAddAll CACHE_NAME ASSETS].
Proof.
  split; [|split; [|split; [|split]]].
  - destruct (install_caches net h) as [-> | (l & _ & ->)];
      rewrite ?has_generation_update; apply has_generation_open.
  - intros name Hne. destruct (install_caches net h) as [-> | (l & _ & ->)];
      rewrite ?generation_update_other by exact Hne; apply generation_open_other, Hne.
  - intros c Hc. destruct (install_caches net h) as [-> | (l & _ & ->)].
    + rewrite generation_open_current, Hc. exists c. auto.
    + rewrite generation_open_update, Hc. simpl.
      eexists. split; [reflexivity|]. intros u. apply put_all_keeps.
  - apply install_background.
  - rewrite install_equation. cbv zeta.
    destruct (fetch_all net manifest_requests) as [l|];
      [destruct (forallb addAll_accepts l)|]; reflexivity.
Qed.

(** *** Generation names *)

Lemma install_keys_unique net h :
  List.NoDup (storage_keys (caches h)) ->
  List.NoDup (storage_keys (caches (snd (on_install net h)))).
Proof.
  intros Hnd. destruct (install_caches net h) as [-> | (l & _ & ->)];
    rewrite ?storage_keys_update; apply storage_keys_open_unique, Hnd.
Qed.

(** X8: install, then activate.  With unique generation names, when every
    manifest fetch resolves with a response addAll accepts, the storage
    after the install and the activation is the current generation and
    nothing else; it holds the response fetched for each manifest entry,
    and every other entry that generation already had. *)
Theorem install_then_activate_leaves_current_only (net : Network) (h : Host) :
  List.NoDup (storage_keys (caches h)) ->
  manifest_served origin net ->
  exists shell,
    caches (snd (activate_handler (snd (on_install net h)))) = [(CACHE_NAME, shell)]
    /\ (forall p, In p ASSETS ->
        shell !! url (request_of origin p) = net (request_of origin p))
    /\ (forall u, ~ In u (asset_urls origin) ->
        shell !! u = default ∅ (generation CACHE_NAME (caches h)) !! u).
Proof.
  intros Hnd Hserved.
  destruct (manifest_fetched origin net Hserved) as (l & Hl & Hacc & Hfst & Hin).
  exists (put_all l (default ∅ (generation CACHE_NAME (caches h)))).
  split; [|exact (put_all_manifest origin net l _ Hfst Hin)].
  destruct (activate_equation (snd (on_install net h))) as [results ->].
  cbn [snd caches]. rewrite filter_current_unique by apply install_keys_unique, Hnd.
  rewrite install_equation. cbv zeta. rewrite Hl, Hacc. cbn [snd caches].
  rewrite generation_open_update. reflexivity.
Qed.

(** X10: generation names stay unique.  No install, activation, fetch
    event or refill ever makes two generations of one name. *)
Theorem generation_names_stay_unique (evs : list Event) (h : Host) :
  List.NoDup (storage_keys (caches h)) ->
  List.NoDup (storage_keys (caches (life origin pathname evs h))).
Proof.
  revert h. induction evs as [|ev evs IH]; intros h Hnd; [exact Hnd|].
  apply IH. destruct ev as [net | [net r | | i]]; simpl.
  - apply install_keys_unique, Hnd.
  - rewrite (fetch_handler_caches origin pathname). exact Hnd.
  - destruct (activate_equation h) as [results ->]. cbn [snd caches].
    apply storage_keys_filter_unique, Hnd.
  - apply run_pending_keys_unique, Hnd.
Qed.

(** X11: the current generation only grows.  Once "didit-cache-v1"
    exists, it exists after any installs, activations, fetch events and
    refills, and every URL it had an entry for still has one: the worker
    never evicts. *)
Theorem current_generation_only_grows (evs : list Event) (h : Host) (c : Cache) :
  generation CACHE_NAME (caches h) = Some c ->
  exists c',
    generation CACHE_NAME (caches (life origin pathname evs h)) = Some c'
    /\ forall u, is_Some (c !! u) -> is_Some (c' !! u).
Proof.
  revert h c. induction evs as [|ev evs IH]; intros h c Hc.
  - exists c. split; [exact Hc | auto].
  - assert (Hstep : exists c1,
               generation CACHE_NAME (caches (occur origin pathname h ev)) = Some c1
               /\ forall u, is_Some (c !! u) -> is_Some (c1 !! u)).
    { destruct ev as [net | [net r | | i]]; simpl.
      - destruct (install_caches net h) as [-> | (l & _ & ->)].
        + rewrite generation_open_current, Hc. exists c. auto.
        + rewrite generation_open_update, Hc. simpl.
          eexists. split; [reflexivity|]. intros u. apply put_all_keeps.
      - rewrite (fetch_handler_caches origin pathname).
        exists c. split; [exact Hc | auto].
      - destruct (activate_equation h) as [results ->]. cbn [snd caches].
        rewrite generation_filter_current. exists c. split; [exact Hc | auto].
      - apply run_pending_current_grows, Hc. }
    destruct Hstep as (c1 & Hc1 & Hgrow1).
    destruct (IH _ c1 Hc1) as (c' & Hc' & Hgrow).
    exists c'. split; [exact Hc' | auto].
Qed.

End WorkerLife.

(** ** Overlapping events *)

Section Overlap.

Variable origin : string.
Variable pathname : string -> string.

Local Abbreviation on_fetch := (fetch_handler origin pathname).



End Overlap.

(** ** Concrete runs

    The worker on the origin of [Sample], with [url_pathname] as the URL
    parser. *)

Lemma sample_manifest_served (resp : Response) :
  put_accepts (Sample.get "/" "cors") resp = true ->
  ok resp = true ->
  manifest_served Sample.origin (Sample.serving resp).
Proof.
  intros Hput Hok p Hp. exists resp. split; [reflexivity|].
  unfold addAll_accepts. cbn [fst snd]. rewrite Hok, andb_true_r.
  unfold put_accepts in *. cbn [method request_of] in *.
  repeat (destruct Hp as [<- | Hp]; [exact Hput|]). destruct Hp.
Qed.

Lemma non_get_passes_through_run :
  let request := {| method := "POST";
                    url := "https://noted.example/api/notes";
                    mode := "cors" |} in
  let h := Sample.host_of [(CACHE_NAME, Sample.shell)] in
  method request <> "GET"
  /\ fetch_handler Sample.origin url_pathname (Sample.serving Sample.notes_json) request h
     = (PassThrough, h).
Proof.
  intros request h.
  assert (Hm : method request <> "GET") by discriminate.
  split; [exact Hm|].
  exact (non_get_passes_through Sample.origin url_pathname
           (Sample.serving Sample.notes_json) request h Hm).
Defined.

Lemma cache_first_hit_run :
  let request := Sample.get "/static/index.html" "navigate" in
  let h := Sample.host_of [(CACHE_NAME, Sample.shell)] in
  (method request = "GET"
   /\ String.prefix "/api/" (url_pathname (url request)) = false
   /\ storage_match (caches h) request = Some Sample.page)
  /\ fetch_handler Sample.origin url_pathname Sample.offline request h
     = (RespondWith (Fulfilled (Some Sample.page)), log (CallCachesMatch request) h)
  /\ network_fetches
       (calls (snd (fetch_handler Sample.origin url_pathname Sample.offline request h)))
     = network_fetches (calls h).
Proof.
  intros request h.
  assert (Hm : method request = "GET") by reflexivity.
  assert (Hp : String.prefix "/api/" (url_pathname (url request)) = false) by reflexivity.
  assert (Hc : storage_match (caches h) request = Some Sample.page) by reflexivity.
  split; [auto|].
  exact (cache_first_hit Sample.origin url_pathname Sample.offline request h
           Sample.page Hm Hp Hc).
Defined.

Lemma api_network_success_run :
  let request := Sample.get "/api/notes?tag=todo" "cors" in
  let h := Sample.host_of [(CACHE_NAME, Sample.shell)] in
  let net := Sample.serving Sample.server_error in
  (method request = "GET"
   /\ String.prefix "/api/" (url_pathname (url request)) = true
   /\ net request = Some Sample.server_error)
  /\ fetch_handler Sample.origin url_pathname net request h
     = (RespondWith (Fulfilled (Some Sample.server_error)), log (CallFetch request) h)
  /\ caches (snd (fetch_handler Sample.origin url_pathname net request h)) = caches h
  /\ background (snd (fetch_handler Sample.origin url_pathname net request h))
     = background h.
Proof.
  intros request h net.
  assert (Hm : method request = "GET") by reflexivity.
  assert (Hp : String.prefix "/api/" (url_pathname (url request)) = true) by reflexivity.
  assert (Hn : net request = Some Sample.server_error) by reflexivity.
  split; [auto|].
  exact (api_network_success Sample.origin url_pathname net request h
           Sample.server_error Hm Hp Hn).
Defined.

Lemma api_network_failure_run :
  let request := Sample.get "/api/notes" "cors" in
  let h := Sample.host_of [(CACHE_NAME, Sample.shell)] in
  (method request = "GET"
   /\ String.prefix "/api/" (url_pathname (url request)) = true
   /\ Sample.offline request = None)
  /\ fetch_handler Sample.origin url_pathname Sample.offline request h
     = (RespondWith (Fulfilled None),
        log (CallCachesMatch request) (log (CallFetch request) h)).
Proof.
  intros request h.
  assert (Hm : method request = "GET") by reflexivity.
  assert (Hp : String.prefix "/api/" (url_pathname (url request)) = true) by reflexivity.
  assert (Hn : Sample.offline request = None) by reflexivity.
  split; [auto|].
  exact (api_network_failure Sample.origin url_pathname Sample.offline request h
           Hm Hp Hn).
Defined.



(** The offline navigation: /some/page is not cached, the network is down,
    and the answer is the stored /static/index.html. *)
Lemma cache_first_offline_run :
  let request := Sample.get "/some/page" "navigate" in
  let image := Sample.get "/photo.jpg" "no-cors" in
  let h := Sample.host_of [(CACHE_NAME, Sample.shell)] in
  fst (fetch_handler Sample.origin url_pathname Sample.offline request h)
  = RespondWith (Fulfilled (Some Sample.page))
  /\ fst (fetch_handler Sample.origin url_pathname Sample.offline image h)
     = RespondWith (Fulfilled None).
Proof.
  intros request image h. split.
  - destruct (cache_first_offline Sample.origin url_pathname Sample.offline request h
                eq_refl eq_refl eq_refl eq_refl) as [Hnav _].
    destruct (Hnav eq_refl) as [_ Hdoc]. apply Hdoc. reflexivity.
  - destruct (cache_first_offline Sample.origin url_pathname Sample.offline image h
                eq_refl eq_refl eq_refl eq_refl) as [_ Hother].
    rewrite Hother; [reflexivity | discriminate].
Defined.



(** With the network down, /app.js is answered from the stale generation
    created first, not from the current one. *)
Lemma reads_search_all_generations_run :
  let request := Sample.get "/app.js" "no-cors" in
  let h := Sample.host_of Sample.stale_first in
  (method request = "GET"
   /\ String.prefix "/api/" (url_pathname (url request)) = false
   /\ storage_match (caches h) request = Some Sample.old_script)
  /\ fst (fetch_handler Sample.origin url_pathname Sample.offline request h)
     = RespondWith (Fulfilled (Some Sample.old_script))
  /\ current_generation_match (caches h) request = Some Sample.script.
Proof.
  intros request h.
  assert (Hm : method request = "GET") by reflexivity.
  assert (Hp : String.prefix "/api/" (url_pathname (url request)) = false) by reflexivity.
  assert (Hc : storage_match (caches h) request = Some Sample.old_script) by reflexivity.
  split; [auto|]. split; [|reflexivity].
  destruct (reads_search_all_generations Sample.origin url_pathname Sample.offline
              request h Hm) as (_ & Hhit & _).
  exact (Hhit Hp Sample.old_script Hc).
Defined.

(** A first install on an empty storage; an install with the web manifest
    unreachable; an install with every fetch answered 404. *)
Lemma install_fills_current_generation_run :
  let h := Sample.host_of [] in
  let net := Sample.serving Sample.page in
  let broken := Sample.all_but "/static/manifest.webmanifest" Sample.page in
  let missing := Sample.serving Sample.not_found in
  manifest_served Sample.origin net
  /\ fst (install_handler Sample.origin net h) = Fulfilled tt
  /\ generation CACHE_NAME (caches (snd (install_handler Sample.origin net h)))
     = Some Sample.shell
  /\ size Sample.shell = 4
  /\ fst (install_handler Sample.origin broken h) = Rejected
  /\ fst (install_handler Sample.origin missing h) = Rejected.
Proof.
  intros h net broken missing.
  destruct (install_fills_current_generation Sample.origin net h) as (Hok & _).
  destruct (install_fills_current_generation Sample.origin broken h) as (_ & Hfail & _).
  destruct (install_fills_current_generation Sample.origin missing h)
    as (_ & _ & Hrefused & _).
  assert (Hserved : manifest_served Sample.origin net)
    by (apply sample_manifest_served; reflexivity).
  destruct (Hok Hserved) as (Hdone & _).
  split; [exact Hserved|]. split; [exact Hdone|].
  split; [reflexivity|]. split; [reflexivity|]. split.
  - apply Hfail. exists "/static/manifest.webmanifest".
    split; [right; right; left; reflexivity | reflexivity].
  - apply Hrefused. exists "/", Sample.not_found.
    split; [left; reflexivity|]. split; reflexivity.
Defined.

(** An install over a generation that a fetch event has refilled: the
    manifest is fetched without a failure, and the generation holds five
    entries afterwards, /app.js among them.  And an install whose four
    fetches all resolve, with a 404: it is reported as failed. *)
Lemma reinstall_keeps_refilled_entry :
  let net := Sample.serving Sample.page in
  let missing := Sample.serving Sample.not_found in
  let installed := snd (install_handler Sample.origin net (Sample.host_of [])) in
  let refilled :=
    drain [0]
      (snd (fetch_handler Sample.origin url_pathname (Sample.serving Sample.script)
              (Sample.get "/app.js" "no-cors") installed)) in
  let again := install_handler Sample.origin net refilled in
  (forall p, In p ASSETS -> is_Some (net (request_of Sample.origin p)))
  /\ fst again = Fulfilled tt
  /\ exists after,
       generation CACHE_NAME (caches (snd again)) = Some after
       /\ after !! url (Sample.get "/app.js" "no-cors") = Some Sample.script
       /\ size after = 5
       /\ ~ (forall u, is_Some (after !! u) <-> In u (asset_urls Sample.origin))
       /\ (forall p, In p ASSETS -> is_Some (missing (request_of Sample.origin p)))
       /\ fst (install_handler Sample.origin missing (Sample.host_of [])) = Rejected.
Proof.
  intros net missing installed refilled again.
  split; [intros p _; exists Sample.page; reflexivity|].
  split; [reflexivity|].
  eexists. split; [vm_compute; reflexivity|].
  split; [vm_compute; reflexivity|]. split; [vm_compute; reflexivity|].
  split; [|split; [intros p _; exists Sample.not_found; reflexivity | reflexivity]].
  intros Hexact.
  destruct (Hexact (url (Sample.get "/app.js" "no-cors"))) as [Hin _].
  assert (Hsome : In (url (Sample.get "/app.js" "no-cors")) (asset_urls Sample.origin)).
  { apply Hin. exists Sample.script. vm_compute. reflexivity. }
  vm_compute in Hsome. intuition discriminate.
Qed.

(** *** Runs for the further properties *)

Lemma get_is_never_rejected_run :
  let request := Sample.get "/photo.jpg" "no-cors" in
  let h := Sample.host_of [(CACHE_NAME, Sample.shell)] in
  method request = "GET"
  /\ exists answer,
       fst (fetch_handler Sample.origin url_pathname Sample.offline request h)
       = RespondWith (Fulfilled answer)
       /\ (answer = None
           <-> Sample.offline request = None
               /\ storage_match (caches h) request = None
               /\ (String.prefix "/api/" (url_pathname (url request)) = false ->
                   mode request = "navigate" ->
                   storage_match (caches h)
                     (request_of Sample.origin "/static/index.html") = None)).
Proof.
  intros request h.
  assert (Hm : method request = "GET") by reflexivity.
  split; [exact Hm|].
  exact (get_is_never_rejected Sample.origin url_pathname Sample.offline request h Hm).
Defined.

Lemma fetch_event_keeps_every_entry_run :
  let request := Sample.get "/app.js" "no-cors" in
  let h := Sample.host_of [(CACHE_NAME, Sample.shell)] in
  let net := Sample.serving Sample.script in
  (background h = [] /\ generation CACHE_NAME (caches h) = Some Sample.shell)
  /\ exists c',
       generation CACHE_NAME
         (caches (drain [0] (snd (fetch_handler Sample.origin url_pathname net request h))))
       = Some c'
       /\ Sample.shell ⊆ c'
       /\ (c' = Sample.shell
           \/ (CACHE_NAME = CACHE_NAME
               /\ Sample.shell !! url request = None
               /\ exists resp, net request = Some resp
                               /\ put_accepts request resp = true
                               /\ c' = <[url request := resp]> Sample.shell)).
Proof.
  intros request h net.
  assert (Hq : background h = []) by reflexivity.
  assert (Hg : generation CACHE_NAME (caches h) = Some Sample.shell) by reflexivity.
  split; [auto|].
  exact (fetch_event_keeps_every_entry Sample.origin url_pathname net request h
           CACHE_NAME Sample.shell [0] Hq Hg).
Defined.

(** /api/notes is fetched with success after an install and an
    activation; with the network down afterwards, the answer is
    undefined. *)
Lemma api_response_is_never_cached_run :
  let q := Sample.get "/api/notes" "cors" in
  let h := Sample.host_of [] in
  let evs := [OnInstall (Sample.serving Sample.page);
              Then OnActivate;
              Then (OnFetch (Sample.serving Sample.notes_json) q);
              Then (RunRefill 0)] in
  (String.prefix "/api/" (url_pathname (url q)) = true
   /\ ~ In (url q) (asset_urls Sample.origin)
   /\ unanswered q h)
  /\ storage_match (caches (life Sample.origin url_pathname evs h)) q = None
  /\ (method q = "GET" ->
      fst (fetch_handler Sample.origin url_pathname (fun _ => None) q
             (life Sample.origin url_pathname evs h))
      = RespondWith (Fulfilled None)).
Proof.
  intros q h evs.
  assert (Hp : String.prefix "/api/" (url_pathname (url q)) = true) by reflexivity.
  assert (Hq : ~ In (url q) (asset_urls Sample.origin)).
  { vm_compute. intuition discriminate. }
  assert (Hun : unanswered q h) by (split; [reflexivity | constructor]).
  split; [auto|].
  exact (api_response_is_never_cached Sample.origin url_pathname q h evs Hp Hq Hun).
Defined.


Lemma install_then_activate_leaves_current_only_run :
  let h := Sample.host_of Sample.stale_first in
  let net := Sample.serving Sample.page in
  (List.NoDup (storage_keys (caches h)) /\ manifest_served Sample.origin net)
  /\ exists shell,
       caches (snd (activate_handler (snd (install_handler Sample.origin net h))))
       = [(CACHE_NAME, shell)]
       /\ (forall p, In p ASSETS ->
           shell !! url (request_of Sample.origin p) = net (request_of Sample.origin p))
       /\ (forall u, ~ In u (asset_urls Sample.origin) ->
           shell !! u = default ∅ (generation CACHE_NAME (caches h)) !! u).
Proof.
  intros h net.
  assert (Hnd : List.NoDup (storage_keys (caches h))).
  { repeat constructor; simpl; intuition discriminate. }
  assert (Hserved : manifest_served Sample.origin net)
    by (apply sample_manifest_served; reflexivity).
  split; [auto|].
  exact (install_then_activate_leaves_current_only Sample.origin net h Hnd Hserved).
Defined.

(** Before the activation /app.js is answered from the stale generation;
    after it, from the current one. *)
Lemma activation_aligns_reads_with_current_run :
  let h := Sample.host_of Sample.stale_first in
  let request := Sample.get "/app.js" "no-cors" in
  List.NoDup (storage_keys (caches h))
  /\ storage_match (caches h) request = Some Sample.old_script
  /\ storage_match (caches (snd (activate_handler h))) request = Some Sample.script.
Proof.
  intros h request.
  assert (Hnd : List.NoDup (storage_keys (caches h))).
  { repeat constructor; simpl; intuition discriminate. }
  split; [exact Hnd|]. split; [reflexivity|].
  rewrite (activation_aligns_reads_with_current h request Hnd). reflexivity.
Defined.

Lemma generation_names_stay_unique_run :
  let h := Sample.host_of Sample.stale_first in
  let evs := [OnInstall (Sample.serving Sample.page);
              Then (OnFetch (Sample.serving Sample.script) (Sample.get "/main.css" "no-cors"));
              Then (RunRefill 0);
              OnInstall Sample.offline;
              Then OnActivate] in
  List.NoDup (storage_keys (caches h))
  /\ List.NoDup (storage_keys (caches (life Sample.origin url_pathname evs h))).
Proof.
  intros h evs.
  assert (Hnd : List.NoDup (storage_keys (caches h))).
  { repeat constructor; simpl; intuition discriminate. }
  split; [exact Hnd|].
  exact (generation_names_stay_unique Sample.origin url_pathname evs h Hnd).
Defined.

Lemma current_generation_only_grows_run :
  let h := Sample.host_of [(CACHE_NAME, Sample.shell)] in
  let evs := [Then (OnFetch (Sample.serving Sample.script) (Sample.get "/app.js" "no-cors"));
              Then (RunRefill 0);
              OnInstall Sample.offline;
              Then OnActivate] in
  generation CACHE_NAME (caches h) = Some Sample.shell
  /\ exists c',
       generation CACHE_NAME (caches (life Sample.origin url_pathname evs h)) = Some c'
       /\ forall u, is_Some (Sample.shell !! u) -> is_Some (c' !! u).
Proof.
  intros h evs.
  assert (Hg : generation CACHE_NAME (caches h) = Some Sample.shell) by reflexivity.
  split; [exact Hg|].
  exact (current_generation_only_grows Sample.origin url_pathname evs h Sample.shell Hg).
Defined.

